(** * Slackr2: the real-time room gateway (MessageGateway)

    A shallow embedding of the NestJS/socket.io gateway class
    [MessageGateway] (backend, message.gateway.ts) together with the
    properties of its presence bookkeeping and of its event fan-out.

    Conventions of the embedding.
    - The gateway's private field [roomMembers : Map<string, Set<string>>]
      is kept with JavaScript's insertion order, because that order is
      observable: [Array.from(set)] is the payload of [roomMembers] events
      and [Map.forEach] fixes the order of the events of a disconnect.
    - socket.io's own state (which socket sits in which room, whether a
      socket is connected, the [data] bag of a socket) is a finite map from
      socket id to a [Socket] record.
    - [server.to(room).emit(..)] reaches the sockets that are in [room] at
      the moment of the call; [client.emit(..)] reaches [client] alone.
    - The collaborators ([MessageService], [JwtService]) are parameters.
      A rejected promise / thrown value is the [Threw] outcome.
    - Every handler is run to completion: the interleaving of two handlers
      at an [await] is outside the model. *)

From stdpp Require Import gmap strings list fin_maps.

Open Scope string_scope.
Open Scope list_scope.

(** ** JavaScript [Set<string>] and [Map<string, V>], insertion ordered *)

Module JsSet.
Abbreviation t := (list string).

Definition empty : t := [].

Definition has (x : string) (s : t) : bool := bool_decide (x ∈ s).

(** [s.add(x)]: an element already present keeps its place. *)
Definition add (x : string) (s : t) : t :=
  if has x s then s else s ++ [x].

(** [s.delete(x)] *)
Definition delete (x : string) (s : t) : t :=
  filter (λ y, y ≠ x) s.

(** [Array.from(s)] *)
Definition to_array (s : t) : list string := s.
End JsSet.

Module JsMap.
Abbreviation t V := (list (string * V)).

Definition empty {V} : t V := [].

Fixpoint get {V} (k : string) (m : t V) : option V :=
  match m with
  | [] => None
  | (k', v) :: m' => if decide (k = k') then Some v else get k m'
  end.

Definition has {V} (k : string) (m : t V) : bool :=
  match get k m with Some _ => true | None => false end.

(** [m.set(k, v)]: a key already present keeps its place. *)
Fixpoint set {V} (k : string) (v : V) (m : t V) : t V :=
  match m with
  | [] => [(k, v)]
  | (k', v') :: m' =>
      if decide (k = k') then (k, v) :: m' else (k', v') :: set k v m'
  end.

Definition keys {V} (m : t V) : list string := m.*1.
End JsMap.

(** ** Data *)

(** The JWT payload cached on the socket: [client.data = { user: payload }]. *)
Record UserPayload := { sub : string }.

(** A persisted message, as far as the gateway looks at it. *)
Record Message := {
  id : string;
  roomId : string;
  userId : string;
  content : string
}.

Record CreateMessageDto := {
  dto_content : string;
  dto_roomId : string
}.

Record UpdateMessageDto := { upd_content : string }.

(** A thrown JavaScript value: an [Error] with its message, or anything
    else ([error instanceof Error] is false). *)
Inductive Thrown :=
| ErrorObj (message : string)
| NonError.

Inductive Outcome (A : Type) :=
| Returned (a : A)
| Threw (e : Thrown).
Arguments Returned {A} a.
Arguments Threw {A} e.

(** One socket.io socket. [handshake_token] is [client.handshake.auth.token]
    ([None] when the field is undefined), [data] is [client.data.user]
    ([None] for the initial empty bag), [rooms] the socket.io rooms the
    socket is in. *)
Record Socket := {
  handshake_token : option string;
  data : option UserPayload;
  rooms : gset string;
  connected : bool
}.

Definition fresh_socket (token : option string) : Socket :=
  {| handshake_token := token; data := None; rooms := ∅; connected := true |}.

Inductive Target :=
| ToClient (client : string)
| ToRoom (channel : string).

Inductive Payload :=
| PMessages (messages : list Message)
| PMembers (members : list string)
| PPresence (userId roomId : string)
| PMessage (message : Message)
| PDeleted (id roomId : string).

Record Emission := {
  target : Target;
  event : string;
  payload : Payload
}.

(** An emission together with the sockets it reached. *)
Record Delivery := {
  emission : Emission;
  receivers : gset string
}.

(** What a handler hands back to the calling socket (the acknowledgement). *)
Inductive Reply :=
| Success
| SuccessMessage (message : Message)
| SuccessMembers (members : list string)
| Failure (error : string).

#[global] Instance Thrown_eq_dec : EqDecision Thrown.
Proof. solve_decision. Defined.
#[global] Instance UserPayload_eq_dec : EqDecision UserPayload.
Proof. solve_decision. Defined.
#[global] Instance Message_eq_dec : EqDecision Message.
Proof. solve_decision. Defined.
#[global] Instance Target_eq_dec : EqDecision Target.
Proof. solve_decision. Defined.
#[global] Instance Payload_eq_dec : EqDecision Payload.
Proof. solve_decision. Defined.
#[global] Instance Emission_eq_dec : EqDecision Emission.
Proof. solve_decision. Defined.

(** ** The collaborators *)

Record MessageService (DB : Type) := {
  findAllByRoom : string → string → DB → Outcome (list Message) * DB;
  create : string → CreateMessageDto → DB → Outcome Message * DB;
  update : string → string → UpdateMessageDto → DB → Outcome Message * DB;
  findOne : string → string → DB → Outcome Message * DB;
  remove : string → string → DB → Outcome unit * DB
}.
Arguments findAllByRoom {DB} _ _ _ _.
Arguments create {DB} _ _ _ _.
Arguments update {DB} _ _ _ _.
Arguments findOne {DB} _ _ _ _.
Arguments remove {DB} _ _ _ _.

Record JwtService := {
  verify : string → Outcome UserPayload
}.

(** ** The state of the gateway process *)

Record Gateway (DB : Type) := {
  roomMembers : JsMap.t JsSet.t;
  sockets : gmap string Socket;
  db : DB
}.
Arguments roomMembers {DB} _.
Arguments sockets {DB} _.
Arguments db {DB} _.
Arguments Build_Gateway {DB} _ _ _.

(** Room names of socket.io: [`room:${roomId}`] and [`user:${sub}`]. *)
Definition room_channel (roomId : string) : string := "room:" +:+ roomId.
Definition user_channel (userSub : string) : string := "user:" +:+ userSub.

(** The sockets that are in room [channel]. *)
Definition subscribers (channel : string) (ss : gmap string Socket) : gset string :=
  dom (filter (λ kv, channel ∈ rooms kv.2) ss).

(** [membersOf]: the member set of a room, empty when the room has no entry
    ([this.roomMembers.get(roomId) || []]). *)
Definition membersOf {DB} (g : Gateway DB) (roomId : string) : JsSet.t :=
  default JsSet.empty (JsMap.get roomId (roomMembers g)).

Definition is_member {DB} (g : Gateway DB) (roomId userId : string) : bool :=
  JsSet.has userId (membersOf g roomId).

(** The connection currently holds a join for the room: its socket is in
    the room's broadcast group. *)
Definition holds_join {DB} (g : Gateway DB) (client roomId : string) : bool :=
  match sockets g !! client with
  | Some s => bool_decide (room_channel roomId ∈ rooms s)
  | None => false
  end.

Definition identity {DB} (g : Gateway DB) (client : string) : option string :=
  s ← sockets g !! client; sub <$> data s.

(** ** The handler monad: state, a log of deliveries, exceptions *)

Section Monad.
Context {DB : Type}.

Definition M (A : Type) : Type :=
  Gateway DB → Outcome A * Gateway DB * list Delivery.

Definition ret {A} (a : A) : M A := λ g, (Returned a, g, []).

Definition bind {A B} (m : M A) (k : A → M B) : M B := λ g,
  match m g with
  | (Returned a, g1, l1) =>
      match k a g1 with (r, g2, l2) => (r, g2, l1 ++ l2) end
  | (Threw e, g1, l1) => (Threw e, g1, l1)
  end.

Definition throw {A} (e : Thrown) : M A := λ g, (Threw e, g, []).

(** [try { body } catch (e) { handler(e) }] *)
Definition try_catch {A} (body : M A) (handler : Thrown → M A) : M A := λ g,
  match body g with
  | (Returned a, g1, l1) => (Returned a, g1, l1)
  | (Threw e, g1, l1) =>
      match handler e g1 with (r, g2, l2) => (r, g2, l1 ++ l2) end
  end.

Definition get_state : M (Gateway DB) := λ g, (Returned g, g, []).

Definition set_roomMembers (m : JsMap.t JsSet.t) : M unit := λ g,
  (Returned tt, Build_Gateway m (sockets g) (db g), []).

Definition alter_socket (f : Socket → Socket) (client : string) : M unit := λ g,
  (Returned tt, Build_Gateway (roomMembers g) (alter f client (sockets g)) (db g), []).

(** A call into the persistence collaborator. *)
Definition call {A} (op : DB → Outcome A * DB) : M A := λ g,
  match op (db g) with
  | (r, d) => (r, Build_Gateway (roomMembers g) (sockets g) d, [])
  end.

Definition lift_outcome {A} (r : Outcome A) : M A := λ g, (r, g, []).

Definition outcome_of {A} (x : Outcome A * Gateway DB * list Delivery) := x.1.1.
Definition state_of {A} (x : Outcome A * Gateway DB * list Delivery) := x.1.2.
Definition log_of {A} (x : Outcome A * Gateway DB * list Delivery) := x.2.
End Monad.

Notation "x <- c1 ;; c2" := (bind c1 (λ x, c2))
  (at level 100, c1 at next level, right associativity).
Notation "c1 ;; c2" := (bind c1 (λ _, c2))
  (at level 100, right associativity).

(** ** socket.io primitives *)

Definition with_rooms (f : gset string → gset string) (s : Socket) : Socket :=
  {| handshake_token := handshake_token s; data := data s;
     rooms := f (rooms s); connected := connected s |}.

Definition closed (s : Socket) : Socket :=
  {| handshake_token := handshake_token s; data := data s;
     rooms := ∅; connected := false |}.

Definition with_data (p : UserPayload) (s : Socket) : Socket :=
  {| handshake_token := handshake_token s; data := Some p;
     rooms := rooms s; connected := connected s |}.

Section SocketIO.
Context {DB : Type}.

(** [client.join(channel)] *)
Definition socket_join (client channel : string) : M (DB:=DB) unit :=
  alter_socket (with_rooms (λ R, {[channel]} ∪ R)) client.

(** [client.leave(channel)] *)
Definition socket_leave (client channel : string) : M (DB:=DB) unit :=
  alter_socket (with_rooms (λ R, R ∖ {[channel]})) client.

(** [client.disconnect()]: the socket leaves all its rooms and is closed. *)
Definition socket_disconnect (client : string) : M (DB:=DB) unit :=
  alter_socket closed client.

(** [client.data = { user: payload }] *)
Definition set_data (client : string) (p : UserPayload) : M (DB:=DB) unit :=
  alter_socket (with_data p) client.

Definition reached (g : Gateway DB) (t : Target) : gset string :=
  match t with
  | ToClient c => {[c]}
  | ToRoom ch => subscribers ch (sockets g)
  end.

Definition delivery (g : Gateway DB) (t : Target) (ev : string) (p : Payload)
    : Delivery :=
  {| emission := {| target := t; event := ev; payload := p |};
     receivers := reached g t |}.

(** [client.emit(ev, p)] and [this.server.to(channel).emit(ev, p)] *)
Definition emit (t : Target) (ev : string) (p : Payload) : M (DB:=DB) unit := λ g,
  (Returned tt, g, [delivery g t ev p]).

(** [console.error(..)] is not observed. *)
Definition console_error (e : Thrown) : M (DB:=DB) unit := ret tt.

(** Reading [client.data.user.sub] without optional chaining: a
    [TypeError] when no user is attached. *)
Definition type_error : Thrown :=
  ErrorObj "Cannot read properties of undefined (reading 'sub')".

Definition user_sub (client : string) : M (DB:=DB) string := λ g,
  match identity g client with
  | Some u => (Returned u, g, [])
  | None => (Threw type_error, g, [])
  end.

(** [Map.forEach]: the callback gets the value first, then the key. *)
Fixpoint forEach (entries : JsMap.t JsSet.t)
    (f : JsSet.t → string → M (DB:=DB) unit) : M (DB:=DB) unit :=
  match entries with
  | [] => ret tt
  | (k, v) :: rest => f v k;; forEach rest f
  end.
End SocketIO.

(** ** The gateway: [class MessageGateway] *)

Section MessageGateway.
Context {DB : Type}.
Variable messageService : MessageService DB.
Variable jwtService : JwtService.

Abbreviation M' := (M (DB:=DB)).

(** [!token] *)
Definition falsy (token : option string) : bool :=
  match token with
  | None => true
  | Some t => bool_decide (t = "")
  end.

Definition handleConnection (client : string) : M' unit :=
  try_catch
    (g <- get_state;;
     let token := sockets g !! client ≫= handshake_token in
     if falsy token then
       socket_disconnect client
     else
       payload <- lift_outcome (verify jwtService (default "" token));;
       set_data client payload;;
       socket_join client (user_channel (sub payload)))
    (λ err,
       console_error err;;
       socket_disconnect client).

(** The body of the [forEach] callback of [handleDisconnect]. *)
Definition leave_on_disconnect (userId : string)
    (members : JsSet.t) (roomId : string) : M' unit :=
  if JsSet.has userId members then
    g <- get_state;;
    let members' := JsSet.delete userId members in
    set_roomMembers (JsMap.set roomId members' (roomMembers g));;
    emit (ToRoom (room_channel roomId)) "roomMembers"
         (PMembers (JsSet.to_array members'));;
    emit (ToRoom (room_channel roomId)) "userLeft" (PPresence userId roomId)
  else ret tt.

Definition handleDisconnect (client : string) : M' unit :=
  try_catch
    (g <- get_state;;
     match identity g client with
     | Some userId =>
         if bool_decide (userId = "") then ret tt
         else forEach (roomMembers g) (leave_on_disconnect userId)
     | None => ret tt
     end)
    (λ error, console_error error).

(** [handleJoinRoom], first half: the socket enters the room's channel
    and the user is added to the room's member set (created on demand). *)
Definition track_join (client roomId : string) : M' string :=
  socket_join client (room_channel roomId);;
  userId <- user_sub client;;
  g <- get_state;;
  (if JsMap.has roomId (roomMembers g) then ret tt
   else set_roomMembers (JsMap.set roomId JsSet.empty (roomMembers g)));;
  g <- get_state;;
  match JsMap.get roomId (roomMembers g) with
  | Some s => set_roomMembers (JsMap.set roomId (JsSet.add userId s) (roomMembers g))
  | None => ret tt
  end;;
  ret userId.

(** [handleJoinRoom], second half: the history is fetched and sent, then
    the member list and the arrival are announced. *)
Definition announce_join (client roomId userId : string) : M' unit :=
  messages <- call (findAllByRoom messageService roomId userId);;
  emit (ToClient client) "messageHistory" (PMessages messages);;
  g <- get_state;;
  let currentMembers := JsSet.to_array (membersOf g roomId) in
  emit (ToRoom (room_channel roomId)) "roomMembers" (PMembers currentMembers);;
  emit (ToRoom (room_channel roomId)) "userJoined" (PPresence userId roomId).

Definition handleJoinRoom (client roomId : string) : M' unit :=
  userId <- track_join client roomId;;
  announce_join client roomId userId.

Definition handleLeaveRoom (client roomId : string) : M' unit :=
  socket_leave client (room_channel roomId);;
  userId <- user_sub client;;
  g <- get_state;;
  (if JsMap.has roomId (roomMembers g) then
     match JsMap.get roomId (roomMembers g) with
     | Some s => set_roomMembers (JsMap.set roomId (JsSet.delete userId s) (roomMembers g))
     | None => ret tt
     end;;
     g <- get_state;;
     let currentMembers := JsSet.to_array (membersOf g roomId) in
     emit (ToRoom (room_channel roomId)) "roomMembers" (PMembers currentMembers)
   else ret tt);;
  emit (ToRoom (room_channel roomId)) "userLeft" (PPresence userId roomId).

(** The [catch] block shared by the acknowledging handlers. *)
Definition failure_reply (error : Thrown) : M' Reply :=
  match error with
  | ErrorObj message => ret (Failure message)
  | NonError => ret (Failure "An unknown error occurred")
  end.

(** The text that block puts into the failure result. *)
Definition error_text (error : Thrown) : string :=
  match error with
  | ErrorObj message => message
  | NonError => "An unknown error occurred"
  end.

Definition handleSendMessage (client : string) (createMessageDto : CreateMessageDto)
    : M' Reply :=
  try_catch
    (userId <- user_sub client;;
     message <- call (create messageService userId createMessageDto);;
     emit (ToRoom (room_channel (dto_roomId createMessageDto))) "newMessage"
          (PMessage message);;
     ret (SuccessMessage message))
    failure_reply.

Definition handleUpdateMessage (client : string) (payload_id payload_content : string)
    : M' Reply :=
  try_catch
    (userId <- user_sub client;;
     let updateMessageDto := {| upd_content := payload_content |} in
     updatedMessage <- call (update messageService payload_id userId updateMessageDto);;
     emit (ToRoom (room_channel (roomId updatedMessage))) "messageUpdated"
          (PMessage updatedMessage);;
     ret (SuccessMessage updatedMessage))
    failure_reply.

Definition handleDeleteMessage (client messageId : string) : M' Reply :=
  try_catch
    (userId <- user_sub client;;
     message <- call (findOne messageService messageId userId);;
     let roomId' := roomId message in
     call (remove messageService messageId userId);;
     emit (ToRoom (room_channel roomId')) "messageDeleted" (PDeleted messageId roomId');;
     ret Success)
    failure_reply.

Definition handleGetRoomMembers (client roomId : string) : M' Reply :=
  try_catch
    (g <- get_state;;
     let members :=
       if JsMap.has roomId (roomMembers g)
       then JsSet.to_array (membersOf g roomId)
       else [] in
     emit (ToClient client) "roomMembers" (PMembers members);;
     ret (SuccessMembers members))
    failure_reply.

(** *** The transport around the handlers *)

(** A new socket arrives with its handshake and [handleConnection] runs. *)
Definition connect (client : string) (token : option string) : M' unit :=
  (λ g, (Returned tt,
         Build_Gateway (roomMembers g) (<[client := fresh_socket token]> (sockets g)) (db g),
         []));;
  handleConnection client.

(** The transport closes a socket: socket.io takes it out of its rooms,
    then fires the [disconnect] event, on which [handleDisconnect] runs. *)
Definition disconnect (client : string) : M' unit :=
  socket_disconnect client;;
  handleDisconnect client.

(** The inbound commands of a socket. *)
Inductive Command :=
| JoinRoom (roomId : string)
| LeaveRoom (roomId : string)
| SendMessage (dto : CreateMessageDto)
| UpdateMessage (id content : string)
| DeleteMessage (messageId : string)
| GetRoomMembers (roomId : string).

Definition dispatch (client : string) (c : Command) : M' (option Reply) :=
  match c with
  | JoinRoom r => handleJoinRoom client r;; ret None
  | LeaveRoom r => handleLeaveRoom client r;; ret None
  | SendMessage dto => r <- handleSendMessage client dto;; ret (Some r)
  | UpdateMessage i c' => r <- handleUpdateMessage client i c';; ret (Some r)
  | DeleteMessage i => r <- handleDeleteMessage client i;; ret (Some r)
  | GetRoomMembers r => r' <- handleGetRoomMembers client r;; ret (Some r')
  end.

(** Commands one after the other; a handler that throws does not stop the
    gateway, the next command meets the state it left. *)
Fixpoint run_commands (cs : list (string * Command)) (g : Gateway DB)
    : Gateway DB * list Delivery :=
  match cs with
  | [] => (g, [])
  | (client, c) :: rest =>
      let r := dispatch client c g in
      let r' := run_commands rest (state_of r) in
      (r'.1, log_of r ++ r'.2)
  end.

(** *** The gateway as a transition system *)

Inductive Input :=
| Connect (client : string) (token : option string)
| Inbound (client : string) (c : Command)
| Close (client : string).

Definition is_connected (g : Gateway DB) (client : string) : bool :=
  match sockets g !! client with
  | Some s => connected s
  | None => false
  end.

(** A handshake comes with a socket id that is not in use; commands and
    closures come from sockets that are open. *)
Definition enabled (g : Gateway DB) (i : Input) : Prop :=
  match i with
  | Connect c _ => sockets g !! c = None
  | Inbound c _ => is_connected g c = true
  | Close c => is_connected g c = true
  end.

Definition step (i : Input) : M' unit :=
  match i with
  | Connect c t => connect c t
  | Inbound c cmd => dispatch c cmd;; ret tt
  | Close c => disconnect c
  end.

Inductive reachable : Gateway DB → Prop :=
| reachable_boot d :
    reachable {| roomMembers := JsMap.empty; sockets := ∅; db := d |}
| reachable_step g i :
    reachable g → enabled g i → reachable (state_of (step i g)).

(** How often [ev] was sent to room [channel] in a log. *)
Definition count_emitted (ev channel : string) (l : list Delivery) : nat :=
  length (filter (λ d, target (emission d) = ToRoom channel ∧ event (emission d) = ev) l).
End MessageGateway.

(** ** [handleJoinRoom] around its awaited fetch

    [await this.messageService.findAllByRoom(..)] suspends the handler:
    until the fetch returns the gateway handles whatever else arrives.
    What follows the fetch in [handleJoinRoom] has no further [await]. *)

Section Awaited.
Context {DB : Type}.
Variable messageService : MessageService DB.
Variable jwtService : JwtService.

(** [handleJoinRoom] from the return of the fetch on: the history goes to
    the client, the member list is read and announced, then the arrival. *)
Definition announce_after_fetch (client roomId userId : string)
    (messages : list Message) : M (DB:=DB) unit :=
  emit (ToClient client) "messageHistory" (PMessages messages);;
  g <- get_state;;
  let currentMembers := JsSet.to_array (membersOf g roomId) in
  emit (ToRoom (room_channel roomId)) "roomMembers" (PMembers currentMembers);;
  emit (ToRoom (room_channel roomId)) "userJoined" (PPresence userId roomId).

(** The inputs the gateway handles in the meantime, one after the other;
    what their handlers return or throw does not reach the suspended one. *)
Fixpoint handle_all (inputs : list Input) : M (DB:=DB) unit :=
  match inputs with
  | [] => ret tt
  | i :: rest =>
      (λ g, let res := step messageService jwtService i g in
            (Returned tt, state_of res, log_of res));;
      handle_all rest
  end.

(** [handleJoinRoom] with the inputs [meanwhile] handled while its fetch
    is awaited. With none it is [handleJoinRoom] run without interruption. *)
Definition handleJoinRoom_meanwhile (meanwhile : list Input)
    (client roomId : string) : M (DB:=DB) unit :=
  userId <- track_join client roomId;;
  messages <- call (findAllByRoom messageService roomId userId);;
  handle_all meanwhile;;
  announce_after_fetch client roomId userId messages.
End Awaited.

(** ** The states the presence handlers lead to *)

Section Expected.
Context {DB : Type}.

Definition with_db (g : Gateway DB) (d : DB) : Gateway DB :=
  {| roomMembers := roomMembers g; sockets := sockets g; db := d |}.

(** After the first half of [handleJoinRoom] for a socket of user [u]. *)
Definition joined (g : Gateway DB) (c r u : string) : Gateway DB :=
  {| roomMembers := JsMap.set r (JsSet.add u (membersOf g r)) (roomMembers g);
     sockets := alter (with_rooms (λ R, {[room_channel r]} ∪ R)) c (sockets g);
     db := db g |}.

(** The three deliveries of a join, for the state [g] they happen in. *)
Definition join_announcements (g : Gateway DB) (c r u : string)
    (messages : list Message) : list Delivery :=
  [delivery g (ToClient c) "messageHistory" (PMessages messages);
   delivery g (ToRoom (room_channel r)) "roomMembers" (PMembers (membersOf g r));
   delivery g (ToRoom (room_channel r)) "userJoined" (PPresence u r)].

(** After [handleLeaveRoom] for a socket of user [u]. *)
Definition left_room (g : Gateway DB) (c r u : string) : Gateway DB :=
  {| roomMembers :=
       if JsMap.has r (roomMembers g)
       then JsMap.set r (JsSet.delete u (membersOf g r)) (roomMembers g)
       else roomMembers g;
     sockets := alter (with_rooms (λ R, R ∖ {[room_channel r]})) c (sockets g);
     db := db g |}.

(** After the socket was closed and [handleDisconnect] ran for user [u]. *)
Definition gone (g : Gateway DB) (c u : string) : Gateway DB :=
  {| roomMembers := (λ kv, (kv.1, JsSet.delete u kv.2)) <$> roomMembers g;
     sockets := alter closed c (sockets g);
     db := db g |}.

(** The two events of one room at a disconnect of user [u], for the
    state [g] the loop runs in. *)
Definition farewell (g : Gateway DB) (u : string) (kv : string * list string)
    : list Delivery :=
  if JsSet.has u kv.2 then
    [delivery g (ToRoom (room_channel kv.1)) "roomMembers"
       (PMembers (JsSet.delete u kv.2));
     delivery g (ToRoom (room_channel kv.1)) "userLeft" (PPresence u kv.1)]
  else [].
End Expected.

(** ** Scripts of presence commands *)

Section Scripts.
Context {DB : Type}.

(** Every command of the script is a [joinRoom] or a [leaveRoom] for room
    [r], sent over a socket of user [u]. *)
Definition presence_only (g : Gateway DB) (u r : string)
    (cs : list (string * Command)) : Prop :=
  Forall (λ x, identity g x.1 = Some u ∧ (x.2 = JoinRoom r ∨ x.2 = LeaveRoom r)) cs.

(** The credentials of a socket: what the handshake fixed. *)
Definition credentials (g : Gateway DB) (c : string)
    : option (option string * option UserPayload * bool) :=
  (λ s, (handshake_token s, data s, connected s)) <$> sockets g !! c.

(** A handler that leaves the credentials of every socket alone. *)
Definition keeps_credentials {A} (m : M (DB:=DB) A) : Prop :=
  ∀ g c, credentials (state_of (m g)) c = credentials g c.

(** A socket that is open, or has a user attached, got there through a
    token that [verify] accepted, and the user attached is the one
    [verify] returned. *)
Definition vouched (jwtService : JwtService)
    (cr : option string * option UserPayload * bool) : Prop :=
  cr.2 = true ∨ is_Some cr.1.2 →
  ∃ t p, cr.1.1 = Some t ∧ falsy (Some t) = false
         ∧ verify jwtService t = Returned p ∧ cr.1.2 = Some p.

Definition admission_invariant (jwtService : JwtService) (g : Gateway DB) : Prop :=
  ∀ c cr, credentials g c = Some cr → vouched jwtService cr.

(** The state right after a handshake was turned away. *)
Definition rejected (g : Gateway DB) (c : string) (token : option string)
    : Gateway DB :=
  {| roomMembers := roomMembers g;
     sockets := <[c := closed (fresh_socket token)]> (sockets g);
     db := db g |}.

(** The state right after a handshake with user [p] was accepted. *)
Definition accepted (g : Gateway DB) (c : string) (token : option string)
    (p : UserPayload) : Gateway DB :=
  {| roomMembers := roomMembers g;
     sockets := <[c := with_rooms (λ R, {[user_channel (sub p)]} ∪ R)
                         (with_data p (fresh_socket token))]> (sockets g);
     db := db g |}.
End Scripts.

(** ** A concrete deployment, for runs of the code

    A persistence service over a list of messages that lets the
    participants of a room read it and write to it, and a token service
    that knows two users. *)

Module Sample.
Definition DB := list Message.

Definition forbidden : Thrown := ErrorObj "Forbidden".
Definition not_found : Thrown := ErrorObj "Not found".

Fixpoint lookup_message (i : string) (d : DB) : option Message :=
  match d with
  | [] => None
  | m :: d' => if decide (id m = i) then Some m else lookup_message i d'
  end.

Definition service (participants : list (string * string)) : MessageService DB :=
  {| findAllByRoom := λ r u d,
       if bool_decide ((r, u) ∈ participants)
       then (Returned (filter (λ m, roomId m = r) d), d)
       else (Threw forbidden, d);
     create := λ u dto d,
       if bool_decide ((dto_roomId dto, u) ∈ participants) then
         let m := {| id := "m-" +:+ dto_content dto; roomId := dto_roomId dto;
                     userId := u; content := dto_content dto |} in
         (Returned m, d ++ [m])
       else (Threw forbidden, d);
     update := λ i u dto d,
       match lookup_message i d with
       | Some m =>
           if decide (userId m = u) then
             let m' := {| id := i; roomId := roomId m; userId := u;
                          content := upd_content dto |} in
             (Returned m', (λ x, if decide (id x = i) then m' else x) <$> d)
           else (Threw forbidden, d)
       | None => (Threw not_found, d)
       end;
     findOne := λ i u d,
       match lookup_message i d with
       | Some m => (Returned m, d)
       | None => (Threw not_found, d)
       end;
     remove := λ i u d,
       match lookup_message i d with
       | Some m =>
           if decide (userId m = u) then (Returned tt, filter (λ x, id x ≠ i) d)
           else (Threw forbidden, d)
       | None => (Threw not_found, d)
       end |}.

Definition jwt : JwtService :=
  {| verify := λ t,
       if decide (t = "token-u1") then Returned {| sub := "u1" |}
       else if decide (t = "token-u2") then Returned {| sub := "u2" |}
       else Threw (ErrorObj "jwt malformed") |}.

(** [u1] and [u2] take part in room [A], [u1] also in room [B]. *)
Definition svc : MessageService DB :=
  service [("A", "u1"); ("A", "u2"); ("B", "u1")].

Definition boot : Gateway DB :=
  {| roomMembers := JsMap.empty; sockets := ∅; db := [] |}.

Definition after {A} (m : M (DB:=DB) A) (g : Gateway DB) : Gateway DB :=
  state_of (m g).

(** Two sockets of [u1] and one of [u2], all connected, nobody joined. *)
Definition lobby : Gateway DB :=
  after (connect jwt "c3" (Some "token-u2"))
    (after (connect jwt "c2" (Some "token-u1"))
       (after (connect jwt "c1" (Some "token-u1")) boot)).

(** Both sockets of [u1] join [A]; then the second one leaves. *)
Definition two_sockets_script : list (string * Command) :=
  [("c1", JoinRoom "A"); ("c2", JoinRoom "A"); ("c2", LeaveRoom "A")].

Definition second_left : Gateway DB :=
  (run_commands svc two_sockets_script lobby).1.

(** The first socket of [u1] and the socket of [u2] are in [A]. *)
Definition two_users_in : Gateway DB :=
  after (handleJoinRoom svc "c3" "A") (after (handleJoinRoom svc "c1" "A") lobby).

Definition hi (r : string) : CreateMessageDto :=
  {| dto_content := "hi"; dto_roomId := r |}.

Definition events (l : list Delivery) : list string :=
  (λ d, event (emission d)) <$> l.
End Sample.

(** ** The browser side: the hook [useRoomSocket]

    (frontend/src/hooks/useRoomSocket.ts) The hook keeps the messages and
    the member list it shows, updates them from the gateway's events, and
    decides which [joinRoom] and [leaveRoom] commands go out when the room
    on display changes. *)

(** What a listener is handed: a bare string, or one of the gateway's
    payloads, which are all objects or arrays. *)
Inductive Received :=
| RText (s : string)
| RPayload (p : Payload).

Record HookView := {
  hk_messages : list Message;
  hk_roomMembers : list string
}.

(** [newSocket.on('roomMembers', ..)] *)
Definition onRoomMembers (roomMembers : list string) (v : HookView) : HookView :=
  {| hk_messages := hk_messages v; hk_roomMembers := roomMembers |}.

(** [newSocket.on('messageHistory', ..)] *)
Definition onMessageHistory (messages : list Message) (v : HookView) : HookView :=
  {| hk_messages := messages; hk_roomMembers := hk_roomMembers v |}.

(** [newSocket.on('newMessage', ..)] *)
Definition onNewMessage (message : Message) (v : HookView) : HookView :=
  {| hk_messages := hk_messages v ++ [message]; hk_roomMembers := hk_roomMembers v |}.

(** [newSocket.on('messageUpdated', ..)] *)
Definition onMessageUpdated (message : Message) (v : HookView) : HookView :=
  {| hk_messages := (λ msg, if decide (id msg = id message) then message else msg)
                      <$> hk_messages v;
     hk_roomMembers := hk_roomMembers v |}.

(** [msg.id !== messageId]: a string is never strictly equal to an object. *)
Definition strict_neq (i : string) (messageId : Received) : bool :=
  match messageId with
  | RText s => negb (bool_decide (i = s))
  | RPayload _ => true
  end.

(** [newSocket.on('messageDeleted', ..)] *)
Definition onMessageDeleted (messageId : Received) (v : HookView) : HookView :=
  {| hk_messages := filter (λ msg, strict_neq (id msg) messageId = true) (hk_messages v);
     hk_roomMembers := hk_roomMembers v |}.

(** An emission of this gateway arriving at the hook. The hook itself has
    no listener for [userJoined] and [userLeft]. [None]: not an event and
    payload this gateway sends. *)
Definition listen (e : Emission) (v : HookView) : option HookView :=
  if decide (event e = "messageDeleted") then
    Some (onMessageDeleted (RPayload (payload e)) v)
  else
    match payload e with
    | PMembers l => if decide (event e = "roomMembers") then Some (onRoomMembers l v) else None
    | PMessages l =>
        if decide (event e = "messageHistory") then Some (onMessageHistory l v) else None
    | PMessage m =>
        if decide (event e = "newMessage") then Some (onNewMessage m v)
        else if decide (event e = "messageUpdated") then Some (onMessageUpdated m v)
        else None
    | PPresence _ _ =>
        if decide (event e = "userJoined") then Some v
        else if decide (event e = "userLeft") then Some v
        else None
    | PDeleted _ _ => None
    end.

(** The deliveries of a log that reach socket [c], handed to its hook in
    the order they were sent. *)
Fixpoint receive_all (c : string) (log : list Delivery) (v : HookView)
    : option HookView :=
  match log with
  | [] => Some v
  | d :: rest =>
      if bool_decide (c ∈ receivers d) then
        match listen (emission d) v with
        | Some v' => receive_all c rest v'
        | None => None
        end
      else receive_all c rest v
  end.

(** The hook's own state: the socket (null before the connection), whether
    a user is logged in, and [currentRoom]. *)
Record HookState := {
  hk_socket : option string;
  hk_user : bool;
  hk_currentRoom : option string
}.

(** [if (currentRoom)]: defined and not the empty string. *)
Definition truthy_room (r : option string) : bool :=
  match r with
  | Some s => negb (bool_decide (s = ""))
  | None => false
  end.

Definition with_currentRoom (r : option string) (h : HookState) : HookState :=
  {| hk_socket := hk_socket h; hk_user := hk_user h; hk_currentRoom := r |}.

(** The [leaveRoom] command for the current room, if there is one. *)
Definition leave_current (sock : string) (h : HookState) : list (string * Command) :=
  if truthy_room (hk_currentRoom h)
  then [(sock, LeaveRoom (default "" (hk_currentRoom h)))]
  else [].

(** The [joinRoom] callback: the commands emitted and the next state. *)
Definition hook_joinRoom (newRoomId : string) (h : HookState)
    : list (string * Command) * HookState :=
  match hk_socket h with
  | Some sock =>
      if hk_user h && negb (bool_decide (Some newRoomId = hk_currentRoom h)) then
        (leave_current sock h ++ [(sock, JoinRoom newRoomId)],
         with_currentRoom (Some newRoomId) h)
      else ([], h)
  | None => ([], h)
  end.

(** The [leaveRoom] callback. *)
Definition hook_leaveRoom (h : HookState) : list (string * Command) * HookState :=
  match hk_socket h with
  | Some sock =>
      if truthy_room (hk_currentRoom h) then
        ([(sock, LeaveRoom (default "" (hk_currentRoom h)))], with_currentRoom None h)
      else ([], h)
  | None => ([], h)
  end.

(** The effect that follows the [roomId] property of the hook. *)
Definition hook_roomEffect (roomId : option string) (h : HookState)
    : list (string * Command) * HookState :=
  match hk_socket h with
  | Some sock =>
      if hk_user h then
        if negb (bool_decide (roomId = hk_currentRoom h)) then
          (leave_current sock h
           ++ (if truthy_room roomId then [(sock, JoinRoom (default "" roomId))] else []),
           with_currentRoom roomId h)
        else ([], h)
      else ([], h)
  | None => ([], h)
  end.

(** The room the socket should be in according to the hook. *)
Definition shown (h : HookState) : option string :=
  if truthy_room (hk_currentRoom h) then hk_currentRoom h else None.

(** The socket is in the channel of the room the hook shows and in no
    other room's channel. *)
Definition in_sync {DB} (h : HookState) (g : Gateway DB) (c : string) : Prop :=
  ∀ r, holds_join g c r = bool_decide (shown h = Some r).

(** ** The browser side: the component [RoomsList]

    The room ids of the store are sorted into direct-message rooms and
    channels. The store [rooms] is a plain object: [rooms[roomId]] is the
    room stored under the id, or else what a plain object inherits under
    that name from [Object.prototype] ([constructor], [toString], ..), or
    else [undefined], and then [.isPrivate] is a [TypeError]. *)

Record RoomInfo := { isPrivate : bool }.

Definition missing_room : Thrown :=
  ErrorObj "Cannot read properties of undefined (reading 'isPrivate')".

(** The store marks the room as private. *)
Definition private_in (roomsById : gmap string RoomInfo) (roomId : string) : Prop :=
  isPrivate <$> roomsById !! roomId = Some true.

#[global] Instance private_in_dec roomsById roomId :
  Decision (private_in roomsById roomId).
Proof. unfold private_in. apply _. Defined.

Section RoomsListModel.
(** What every plain object inherits: [inherited k] is [Some b] when [k]
    names an inherited member, [b] telling whether the [isPrivate] of that
    member is truthy, and [None] when no member is inherited under [k]. *)
Variable inherited : string → option bool.

(** Whether [rooms[roomId].isPrivate] is truthy; [None] when [rooms[roomId]]
    is undefined. *)
Definition room_isPrivate (roomsById : gmap string RoomInfo) (roomId : string)
    : option bool :=
  match roomsById !! roomId with
  | Some info => Some (isPrivate info)
  | None => inherited roomId
  end.

(** The [forEach] of the [useMemo]: [acc] is [(pRooms, rRooms)]. *)
Fixpoint sort_rooms (roomsById : gmap string RoomInfo) (allRoomIds : list string)
    (acc : list string * list string) : Outcome (list string * list string) :=
  match allRoomIds with
  | [] => Returned acc
  | roomId :: rest =>
      match room_isPrivate roomsById roomId with
      | Some true => sort_rooms roomsById rest (acc.1 ++ [roomId], acc.2)
      | Some false => sort_rooms roomsById rest (acc.1, acc.2 ++ [roomId])
      | None => Threw missing_room
      end
  end.

(** What the component renders: nothing for an empty store, else the
    channels followed by the direct-message rooms. The lists are computed
    before the empty store is looked at. *)
Definition RoomsList (roomsById : gmap string RoomInfo) (allRoomIds : list string)
    : Outcome (option (list string * list string)) :=
  match sort_rooms roomsById allRoomIds ([], []) with
  | Returned (privateRooms, regularRooms) =>
      if bool_decide (length allRoomIds = 0) then Returned None
      else Returned (Some (regularRooms, privateRooms))
  | Threw e => Threw e
  end.
End RoomsListModel.

(** ** More sample states *)

Module Demo.
(** A socket whose handshake has not been looked at yet. *)
Definition waiting : Gateway Sample.DB :=
  {| roomMembers := JsMap.empty; sockets := {["c0" := fresh_socket None]}; db := [] |}.

(** The hook of the first socket of [u1], showing no room. *)
Definition idle : HookState :=
  {| hk_socket := Some "c1"; hk_user := true; hk_currentRoom := None |}.

Definition store : gmap string RoomInfo :=
  {["general" := {| isPrivate := false |}]}
  ∪ {["dm-1" := {| isPrivate := true |}]}
  ∪ {["random" := {| isPrivate := false |}]}.

Definition greeting (i t : string) : Message :=
  {| id := i; roomId := "A"; userId := "u1"; content := t |}.

(** [u2] has posted "hi" to room [A] from the lobby. *)
Definition posted : Gateway Sample.DB :=
  Sample.after (handleSendMessage Sample.svc "c3" (Sample.hi "A")) Sample.lobby.

Definition view_of (l : list Message) : HookView :=
  {| hk_messages := l; hk_roomMembers := [] |}.

(** A socket as socket.io hands it to [handleConnection]: open, in the
    room named by its own id, with the token of [u2] in its handshake. *)
Definition knocker : Socket :=
  {| handshake_token := Some "token-u2"; data := None; rooms := {["c7"]};
     connected := true |}.

Definition knocking : Gateway Sample.DB :=
  {| roomMembers := JsMap.empty; sockets := {["c7" := knocker]}; db := [] |}.

(** The socket of [u2] is in room [A], nobody else. *)
Definition u2_in : Gateway Sample.DB :=
  Sample.after (handleJoinRoom Sample.svc "c3" "A") Sample.lobby.

(** The first socket of [u1] leaves room [A] again at once. *)
Definition leaves_at_once : list Input :=
  [Inbound "c1" (LeaveRoom "A")].

(** The members of [Object.prototype]; none of them has an [isPrivate]. *)
Definition object_prototype (k : string) : option bool :=
  if bool_decide (k ∈ ["constructor"; "hasOwnProperty"; "isPrototypeOf";
                       "propertyIsEnumerable"; "toLocaleString"; "toString";
                       "valueOf"; "__proto__"; "__defineGetter__";
                       "__defineSetter__"; "__lookupGetter__"; "__lookupSetter__"])
  then Some false else None.
End Demo.

(** * Properties *)

(** ** The ordered containers *)

Module JsSetFacts.
Lemma jsset_has_true x (s : list string) : JsSet.has x s = true ↔ x ∈ s.
Proof. unfold JsSet.has. by rewrite bool_decide_eq_true. Qed.

Lemma jsset_has_false x (s : list string) : JsSet.has x s = false ↔ x ∉ s.
Proof. unfold JsSet.has. by rewrite bool_decide_eq_false. Qed.

Lemma elem_of_add x y (s : list string) : y ∈ JsSet.add x s ↔ y = x ∨ y ∈ s.
Proof.
  unfold JsSet.add. destruct (JsSet.has x s) eqn:E.
  - apply jsset_has_true in E. split; [by right | by intros [-> | ?]].
  - rewrite elem_of_app, list_elem_of_singleton. tauto.
Qed.

Lemma has_add x (s : list string) : JsSet.has x (JsSet.add x s) = true.
Proof. apply jsset_has_true, elem_of_add. by left. Qed.



Lemma NoDup_add x (s : list string) : NoDup s → NoDup (JsSet.add x s).
Proof.
  intros H. unfold JsSet.add. destruct (JsSet.has x s) eqn:E; [done |].
  apply jsset_has_false in E. apply NoDup_app. split_and!; [done | | apply NoDup_singleton].
  intros y Hy ->%list_elem_of_singleton. done.
Qed.

Lemma elem_of_delete x y (s : list string) : y ∈ JsSet.delete x s ↔ y ≠ x ∧ y ∈ s.
Proof. unfold JsSet.delete. by rewrite list_elem_of_filter. Qed.

Lemma has_delete x (s : list string) : JsSet.has x (JsSet.delete x s) = false.
Proof. apply jsset_has_false. rewrite elem_of_delete. tauto. Qed.

Lemma delete_absent x (s : list string) : x ∉ s → JsSet.delete x s = s.
Proof.
  unfold JsSet.delete. induction s as [| y s IH]; [done |].
  intros H. apply not_elem_of_cons in H as [Hne Hs].
  rewrite filter_cons_True by done. by rewrite IH.
Qed.

Lemma NoDup_delete x (s : list string) : NoDup s → NoDup (JsSet.delete x s).
Proof. apply NoDup_filter. Qed.
End JsSetFacts.

Module JsMapFacts.
Section Facts.
Context {V : Type}.
Implicit Types (m : list (string * V)) (k : string) (v : V).

Lemma get_set_eq k v m : JsMap.get k (JsMap.set k v m) = Some v.
Proof.
  induction m as [| [k' v'] m IH]; simpl.
  - by rewrite decide_True.
  - destruct (decide (k = k')) as [-> | Hne]; simpl.
    + by rewrite decide_True.
    + by rewrite decide_False.
Qed.

Lemma get_set_ne k k' v m : k ≠ k' → JsMap.get k' (JsMap.set k v m) = JsMap.get k' m.
Proof.
  intros Hne. induction m as [| [k0 v0] m IH]; simpl.
  - by rewrite decide_False.
  - destruct (decide (k = k0)) as [-> | Hne0]; simpl.
    + by rewrite !decide_False.
    + by rewrite IH.
Qed.

Lemma set_set k v v' m : JsMap.set k v (JsMap.set k v' m) = JsMap.set k v m.
Proof.
  induction m as [| [k0 v0] m IH]; simpl.
  - by rewrite decide_True.
  - destruct (decide (k = k0)) as [-> | Hne]; simpl.
    + by rewrite decide_True.
    + by rewrite decide_False, IH.
Qed.

Lemma set_get_id k v m : JsMap.get k m = Some v → JsMap.set k v m = m.
Proof.
  induction m as [| [k0 v0] m IH]; simpl; [done |].
  destruct (decide (k = k0)) as [-> | Hne]; [congruence |].
  intros H. by rewrite IH.
Qed.

Lemma jsmap_has_true k m : JsMap.has k m = true ↔ is_Some (JsMap.get k m).
Proof.
  unfold JsMap.has. destruct (JsMap.get k m); split; try done.
Qed.

Lemma jsmap_has_false k m : JsMap.has k m = false ↔ JsMap.get k m = None.
Proof. unfold JsMap.has. by destruct (JsMap.get k m). Qed.

Lemma has_set k v m : JsMap.has k (JsMap.set k v m) = true.
Proof. apply jsmap_has_true. rewrite get_set_eq. by eexists. Qed.

Lemma get_None_keys k m : JsMap.get k m = None ↔ k ∉ JsMap.keys m.
Proof.
  unfold JsMap.keys. induction m as [| [k0 v0] m IH]; simpl.
  - split; [intros _; apply not_elem_of_nil | done].
  - rewrite not_elem_of_cons. destruct (decide (k = k0)) as [-> | Hne].
    + split; [done | tauto].
    + rewrite IH. tauto.
Qed.

(** [set] neither adds a second copy of a key nor moves one. *)
Lemma keys_set k v m :
  JsMap.keys (JsMap.set k v m) =
    if JsMap.has k m then JsMap.keys m else JsMap.keys m ++ [k].
Proof.
  unfold JsMap.keys, JsMap.has. induction m as [| [k0 v0] m IH]; [done |].
  cbn [JsMap.set JsMap.get].
  destruct (decide (k = k0)) as [-> | Hne]; [done |].
  rewrite !fmap_cons, IH. by destruct (JsMap.get k m).
Qed.

Lemma NoDup_keys_set k v m :
  NoDup (JsMap.keys m) → NoDup (JsMap.keys (JsMap.set k v m)).
Proof.
  intros H. rewrite keys_set. destruct (JsMap.has k m) eqn:E; [done |].
  apply jsmap_has_false, get_None_keys in E.
  apply NoDup_app. split_and!; [done | | apply NoDup_singleton].
  intros y Hy ->%list_elem_of_singleton. done.
Qed.
End Facts.
End JsMapFacts.

(** ** Sockets and channels *)

Lemma room_channel_inj r r' : room_channel r = room_channel r' → r = r'.
Proof. unfold room_channel. intros H. cbv in H. congruence. Qed.

Lemma with_rooms_id f (s : Socket) : f (rooms s) = rooms s → with_rooms f s = s.
Proof. destruct s; unfold with_rooms; simpl. by intros ->. Qed.

Section SocketFacts.
Context {DB : Type}.
Implicit Types (g : Gateway DB) (ss : gmap string Socket).

Lemma identity_alter (f : Socket → Socket) m g c c' (d : DB) :
  (∀ s, data (f s) = data s) →
  identity (Build_Gateway m (alter f c (sockets g)) d) c' = identity g c'.
Proof.
  intros Hf. unfold identity; simpl.
  destruct (decide (c = c')) as [-> | Hne].
  - rewrite lookup_alter_eq. destruct (sockets g !! c'); simpl; [by rewrite Hf | done].
  - by rewrite lookup_alter_ne.
Qed.

Lemma identity_is_Some g c u : identity g c = Some u → is_Some (sockets g !! c).
Proof. unfold identity. destruct (sockets g !! c); [by eexists | done]. Qed.

Lemma elem_of_subscribers ch ss c :
  c ∈ subscribers ch ss ↔ ∃ s, ss !! c = Some s ∧ ch ∈ rooms s.
Proof.
  unfold subscribers. rewrite elem_of_dom. split.
  - intros [s Hs]. apply map_lookup_filter_Some in Hs as [? ?]. by exists s.
  - intros (s & ? & ?). exists s. by apply map_lookup_filter_Some.
Qed.


(** A socket that leaves a channel leaves its subscribers, nobody else does. *)
Lemma subscribers_leave ch ss c :
  subscribers ch (alter (with_rooms (λ R, R ∖ {[ch]})) c ss) = subscribers ch ss ∖ {[c]}.
Proof.
  apply set_eq. intros c'.
  rewrite elem_of_difference, elem_of_singleton, !elem_of_subscribers.
  destruct (decide (c = c')) as [-> | Hne].
  - rewrite lookup_alter_eq. split; [| tauto].
    intros (s & Hs & Hin). destruct (ss !! c') as [s0 |]; [| done].
    simpl in Hs. inversion Hs; subst s. simpl in Hin.
    apply elem_of_difference in Hin as [_ Hn]. exfalso. by apply Hn, elem_of_singleton.
  - rewrite lookup_alter_ne by done. split; [| tauto]. intros H. split; [done | congruence].
Qed.

(** A closed socket is in no channel. *)
Lemma subscribers_closed ch ss c : c ∉ subscribers ch (alter closed c ss).
Proof.
  rewrite elem_of_subscribers, lookup_alter_eq.
  intros (s & Hs & Hin). destruct (ss !! c) as [s0 |]; [| done].
  simpl in Hs. inversion Hs; subst s. simpl in Hin.
  by apply not_elem_of_empty in Hin.
Qed.
End SocketFacts.

(** ** What the handlers compute *)

Section HandlerFacts.
Context {DB : Type}.
Variable messageService : MessageService DB.
Variable jwtService : JwtService.
Implicit Types (g : Gateway DB) (c r u : string).

Lemma membersOf_joined g c r u :
  membersOf (joined g c r u) r = JsSet.add u (membersOf g r).
Proof. unfold membersOf at 1, joined; simpl. by rewrite JsMapFacts.get_set_eq. Qed.

Lemma membersOf_joined_ne g c r r' u :
  r ≠ r' → membersOf (joined g c r u) r' = membersOf g r'.
Proof.
  intros Hne. unfold membersOf, joined; simpl. by rewrite JsMapFacts.get_set_ne.
Qed.

Lemma track_join_run g c r u :
  identity g c = Some u →
  track_join c r g = (Returned u, joined g c r u, []).
Proof.
  intros Hid. unfold track_join, bind, socket_join, alter_socket, user_sub,
    get_state, set_roomMembers, ret; simpl.
  rewrite identity_alter by done. rewrite Hid. simpl.
  unfold joined, membersOf.
  destruct (JsMap.has r (roomMembers g)) eqn:Hhas; simpl.
  - apply JsMapFacts.jsmap_has_true in Hhas as [s Hs]. by rewrite Hs.
  - rewrite JsMapFacts.get_set_eq. simpl.
    apply JsMapFacts.jsmap_has_false in Hhas. rewrite Hhas. simpl.
    by rewrite JsMapFacts.set_set.
Qed.

Lemma announce_join_run g c r u :
  announce_join messageService c r u g =
    match findAllByRoom messageService r u (db g) with
    | (Returned messages, d) =>
        (Returned tt, with_db g d, join_announcements (with_db g d) c r u messages)
    | (Threw e, d) => (Threw e, with_db g d, [])
    end.
Proof.
  unfold announce_join, bind, call, emit, get_state; simpl.
  by destruct (findAllByRoom messageService r u (db g)) as [[messages | e] d].
Qed.

Lemma handleJoinRoom_run g c r u :
  identity g c = Some u →
  handleJoinRoom messageService c r g =
    match findAllByRoom messageService r u (db g) with
    | (Returned messages, d) =>
        (Returned tt, with_db (joined g c r u) d,
         join_announcements (with_db (joined g c r u) d) c r u messages)
    | (Threw e, d) => (Threw e, with_db (joined g c r u) d, [])
    end.
Proof.
  intros Hid. unfold handleJoinRoom, bind.
  rewrite (track_join_run _ _ _ _ Hid), announce_join_run. simpl.
  by destruct (findAllByRoom messageService r u (db g)) as [[messages | e] d].
Qed.

Lemma handleLeaveRoom_run g c r u :
  identity g c = Some u →
  handleLeaveRoom c r g =
    (Returned tt, left_room g c r u,
     (if JsMap.has r (roomMembers g)
      then [delivery (left_room g c r u) (ToRoom (room_channel r)) "roomMembers"
              (PMembers (JsSet.delete u (membersOf g r)))]
      else [])
     ++ [delivery (left_room g c r u) (ToRoom (room_channel r)) "userLeft"
           (PPresence u r)]).
Proof.
  intros Hid. unfold handleLeaveRoom, bind, socket_leave, alter_socket, user_sub,
    get_state, set_roomMembers, emit, ret; simpl.
  rewrite identity_alter by done. rewrite Hid. simpl.
  unfold left_room, membersOf.
  destruct (JsMap.has r (roomMembers g)) eqn:Hhas; simpl; [| done].
  apply JsMapFacts.jsmap_has_true in Hhas as [s Hs]. rewrite Hs. simpl.
  by rewrite JsMapFacts.get_set_eq.
Qed.

Lemma failure_reply_run g (e : Thrown) :
  failure_reply e g = (Returned (Failure (error_text e)), g, []).
Proof. by destruct e. Qed.

Lemma is_member_joined g c r u : is_member (joined g c r u) r u = true.
Proof. unfold is_member. rewrite membersOf_joined. apply JsSetFacts.has_add. Qed.

Lemma is_member_left_room g c r u : is_member (left_room g c r u) r u = false.
Proof.
  unfold is_member, membersOf at 1, left_room; simpl.
  destruct (JsMap.has r (roomMembers g)) eqn:Hhas.
  - rewrite JsMapFacts.get_set_eq. apply JsSetFacts.has_delete.
  - apply JsMapFacts.jsmap_has_false in Hhas. by rewrite Hhas.
Qed.

Lemma holds_join_joined g c r u :
  is_Some (sockets g !! c) → holds_join (joined g c r u) c r = true.
Proof.
  intros [s Hs]. unfold holds_join, joined; simpl.
  rewrite lookup_alter_eq, Hs. simpl. apply bool_decide_eq_true.
  by apply elem_of_union_l, elem_of_singleton.
Qed.

Lemma holds_join_left_room g c r u : holds_join (left_room g c r u) c r = false.
Proof.
  unfold holds_join, left_room; simpl. rewrite lookup_alter_eq.
  destruct (sockets g !! c); simpl; [| done].
  apply bool_decide_eq_false. rewrite not_elem_of_difference. right.
  by apply elem_of_singleton.
Qed.

Lemma identity_joined g c r u c' : identity (joined g c r u) c' = identity g c'.
Proof. unfold joined. by apply identity_alter. Qed.

Lemma identity_left_room g c r u c' : identity (left_room g c r u) c' = identity g c'.
Proof. unfold left_room. by apply identity_alter. Qed.

Lemma identity_with_db g (d : DB) c : identity (with_db g d) c = identity g c.
Proof. done. Qed.
End HandlerFacts.

(** ** Deliveries depend on the sockets only *)

Section DeliveryFacts.
Context {DB : Type}.
Implicit Types (g : Gateway DB).

Lemma delivery_ext g g' t ev p :
  sockets g = sockets g' → delivery g t ev p = delivery g' t ev p.
Proof. intros H. unfold delivery, reached. by rewrite H. Qed.

Lemma alter_fixed (f : Socket → Socket) (ss : gmap string Socket) c :
  (∀ s, ss !! c = Some s → f s = s) → alter f c ss = ss.
Proof.
  intros Hf. apply map_eq. intros c'. destruct (decide (c = c')) as [-> | Hne].
  - rewrite lookup_alter_eq. destruct (ss !! c') as [s |] eqn:E; simpl; [| done].
    by rewrite Hf.
  - by rewrite lookup_alter_ne.
Qed.

Lemma alter_twice (f : Socket → Socket) (ss : gmap string Socket) c :
  (∀ s, f (f s) = f s) → alter f c (alter f c ss) = alter f c ss.
Proof.
  intros Hf. apply map_eq. intros c'. destruct (decide (c = c')) as [-> | Hne].
  - rewrite !lookup_alter_eq. destruct (ss !! c'); simpl; [by rewrite Hf | done].
  - by rewrite !lookup_alter_ne.
Qed.



Lemma sockets_left_room_not_held g c r u :
  holds_join g c r = false → sockets (left_room g c r u) = sockets g.
Proof.
  unfold holds_join, left_room; simpl. intros H. apply alter_fixed.
  intros s Hs. rewrite Hs in H. apply bool_decide_eq_false in H.
  apply with_rooms_id. apply set_eq. intros x.
  rewrite elem_of_difference, elem_of_singleton. split; [tauto |].
  intros Hx. split; [done |]. by intros ->.
Qed.
End DeliveryFacts.

(** ** joinRoom, leaveRoom and sendMessage *)

Section PresenceClaims.
Context {DB : Type}.
Variable messageService : MessageService DB.
Implicit Types (g : Gateway DB) (c r u : string).

Lemma handleJoinRoom_state g c r u :
  identity g c = Some u →
  ∃ d, state_of (handleJoinRoom messageService c r g) = with_db (joined g c r u) d.
Proof.
  intros Hid. rewrite (handleJoinRoom_run _ _ _ _ _ Hid).
  destruct (findAllByRoom messageService r u (db g)) as [[messages | e] d];
    by exists d.
Qed.

(** C10. [handleJoinRoom] adds the user to the room's member set, creating
    the entry when there is none, before the persistence service is asked
    for the history: the first half of the handler ends with the user in
    the set and the database untouched. When the fetch then fails, the
    handler throws, nothing has been emitted, and the user is still in
    the member set. *)
Theorem join_keeps_member_when_history_fails g c r u e d :
  identity g c = Some u →
  findAllByRoom messageService r u (db g) = (Threw e, d) →
  track_join c r g = (Returned u, joined g c r u, [])
  ∧ db (joined g c r u) = db g
  ∧ JsMap.has r (roomMembers (joined g c r u)) = true
  ∧ is_member (joined g c r u) r u = true
  ∧ handleJoinRoom messageService c r g = (Threw e, with_db (joined g c r u) d, [])
  ∧ is_member (with_db (joined g c r u) d) r u = true.
Proof.
  intros Hid Hfetch. split_and!.
  - by apply track_join_run.
  - done.
  - apply JsMapFacts.has_set.
  - apply is_member_joined.
  - rewrite (handleJoinRoom_run _ _ _ _ _ Hid). by rewrite Hfetch.
  - apply is_member_joined.
Qed.

(** C9. [leaveRoom] for a room the socket is not in does not fail: the
    handler returns, [userLeft {userId, roomId}] goes to the room's
    channel, and a [roomMembers] snapshot precedes it exactly when the
    room has an entry in the membership map. *)
Theorem leave_without_join_still_announces g c r u :
  identity g c = Some u →
  holds_join g c r = false →
  let res := handleLeaveRoom c r g in
  outcome_of res = Returned tt
  ∧ sockets (state_of res) = sockets g
  ∧ log_of res =
      (if JsMap.has r (roomMembers g)
       then [delivery g (ToRoom (room_channel r)) "roomMembers"
               (PMembers (JsSet.delete u (membersOf g r)))]
       else [])
      ++ [delivery g (ToRoom (room_channel r)) "userLeft" (PPresence u r)].
Proof.
  intros Hid Hout res. subst res. rewrite (handleLeaveRoom_run _ _ _ _ Hid).
  pose proof (sockets_left_room_not_held g c r u Hout) as Hs.
  unfold outcome_of, state_of, log_of; simpl. split_and!; [done | done |].
  rewrite !(delivery_ext (left_room g c r u) g) by done. done.
Qed.

(** C7, as the code has it. [leaveRoom] for a room the socket is in takes
    the socket out of the room's channel first and the user out of the
    member set, and then sends the refreshed [roomMembers] and [userLeft]
    to the channel: they reach the sockets that remain, not the leaver. *)
Theorem leave_announces_to_remaining_only g c r u :
  identity g c = Some u →
  holds_join g c r = true →
  JsMap.has r (roomMembers g) = true →
  let res := handleLeaveRoom c r g in
  let remaining := subscribers (room_channel r) (sockets g) ∖ {[c]} in
  outcome_of res = Returned tt
  ∧ holds_join (state_of res) c r = false
  ∧ membersOf (state_of res) r = JsSet.delete u (membersOf g r)
  ∧ log_of res =
      [ {| emission := {| target := ToRoom (room_channel r); event := "roomMembers";
                          payload := PMembers (JsSet.delete u (membersOf g r)) |};
           receivers := remaining |};
        {| emission := {| target := ToRoom (room_channel r); event := "userLeft";
                          payload := PPresence u r |};
           receivers := remaining |} ]
  ∧ c ∉ remaining.
Proof.
  intros Hid Hin Hhas res remaining. subst res remaining.
  rewrite (handleLeaveRoom_run _ _ _ _ Hid).
  unfold outcome_of, state_of, log_of; simpl. split_and!.
  - done.
  - apply holds_join_left_room.
  - unfold membersOf at 1, left_room; simpl. rewrite Hhas.
    by rewrite JsMapFacts.get_set_eq.
  - rewrite Hhas. unfold delivery, reached, left_room; simpl.
    by rewrite subscribers_leave.
  - rewrite elem_of_difference, elem_of_singleton. tauto.
Qed.

(** C4, as the code has it. [sendMessage] does not look at the joins: it
    hands the message to the persistence service. When that succeeds,
    exactly one [newMessage] with the stored message goes to the channel
    of the message's room and the sender gets the success result; when it
    fails, the sender gets the failure result and nothing is emitted.
    Membership and sockets are left as they were. *)
Theorem sendMessage_broadcasts_iff_persisted g c dto u :
  identity g c = Some u →
  handleSendMessage messageService c dto g =
    match create messageService u dto (db g) with
    | (Returned m, d) =>
        (Returned (SuccessMessage m), with_db g d,
         [ {| emission := {| target := ToRoom (room_channel (dto_roomId dto));
                             event := "newMessage"; payload := PMessage m |};
              receivers := subscribers (room_channel (dto_roomId dto)) (sockets g) |} ])
    | (Threw e, d) => (Returned (Failure (error_text e)), with_db g d, [])
    end.
Proof.
  intros Hid. unfold handleSendMessage, try_catch, bind, user_sub, call, emit, ret.
  rewrite Hid.
  destruct (create messageService u dto (db g)) as [[m | e] d]; simpl; [done |].
  by destruct e.
Qed.

End PresenceClaims.


(** ** joinRoom: what it changes, what it sends, and when *)

Section JoinClaims.
Context {DB : Type}.
Variable messageService : MessageService DB.
Variable jwtService : JwtService.
Implicit Types (g : Gateway DB) (c r u : string).

Lemma announce_after_fetch_run g c r u messages :
  announce_after_fetch c r u messages g
  = (Returned tt, g, join_announcements g c r u messages).
Proof. done. Qed.

Lemma handle_all_returns inputs : ∀ g,
  outcome_of (handle_all messageService jwtService inputs g) = Returned tt.
Proof.
  induction inputs as [| i inputs IH]; intros g; [done |].
  cbn [handle_all]. unfold bind, outcome_of in *.
  specialize (IH (state_of (step messageService jwtService i g))).
  by destruct (handle_all messageService jwtService inputs _) as [[o g'] l]; cbn in *; subst.
Qed.

Lemma handleJoinRoom_meanwhile_run meanwhile g c r u messages d :
  identity g c = Some u →
  findAllByRoom messageService r u (db g) = (Returned messages, d) →
  let waited := handle_all messageService jwtService meanwhile
                  (with_db (joined g c r u) d) in
  handleJoinRoom_meanwhile messageService jwtService meanwhile c r g
  = (Returned tt, state_of waited,
     log_of waited ++ join_announcements (state_of waited) c r u messages).
Proof.
  intros Hid Hfetch waited. subst waited.
  unfold handleJoinRoom_meanwhile, bind at 1. rewrite (track_join_run _ _ _ _ Hid).
  unfold bind at 1, call. cbn [db joined]. rewrite Hfetch.
  change {| roomMembers := roomMembers (joined g c r u);
            sockets := sockets (joined g c r u); db := d |}
    with (with_db (joined g c r u) d).
  unfold bind.
  pose proof (handle_all_returns meanwhile (with_db (joined g c r u) d)) as Hret.
  unfold outcome_of, state_of, log_of in *.
  destruct (handle_all messageService jwtService meanwhile _) as [[o g3] l3].
  cbn in Hret. subst o. by rewrite announce_after_fetch_run.
Qed.



(** C6, as the code has it. A successful [joinRoom] sends the history to
    the joining socket alone; after it one [roomMembers] snapshot goes to
    the room's channel, and after that [userJoined] to the same sockets,
    so every receiver sees [roomMembers] before [userJoined]. The snapshot
    and the receivers are taken when the fetch has returned, after
    whatever the gateway handled in the meantime: they are the member set
    and the channel as they are then. They hold the joiner when the user
    is still listed and the socket still in the channel at that moment,
    as is the case when nothing was handled in the meantime. *)
Theorem join_announces_members_then_arrival meanwhile g c r u messages d :
  identity g c = Some u →
  findAllByRoom messageService r u (db g) = (Returned messages, d) →
  let waited := handle_all messageService jwtService meanwhile
                  (with_db (joined g c r u) d) in
  let resumed := state_of waited in
  let group := subscribers (room_channel r) (sockets resumed) in
  handleJoinRoom_meanwhile messageService jwtService meanwhile c r g
  = (Returned tt, resumed,
     log_of waited ++
     [ {| emission := {| target := ToClient c; event := "messageHistory";
                         payload := PMessages messages |};
          receivers := {[c]} |};
       {| emission := {| target := ToRoom (room_channel r); event := "roomMembers";
                         payload := PMembers (membersOf resumed r) |};
          receivers := group |};
       {| emission := {| target := ToRoom (room_channel r); event := "userJoined";
                         payload := PPresence u r |};
          receivers := group |} ])
  ∧ (holds_join resumed c r = true → c ∈ group)
  ∧ (is_member resumed r u = true → u ∈ membersOf resumed r)
  ∧ (meanwhile = [] →
       handleJoinRoom_meanwhile messageService jwtService meanwhile c r g
       = handleJoinRoom messageService c r g
       ∧ c ∈ group ∧ u ∈ membersOf resumed r).
Proof.
  intros Hid Hfetch waited resumed group.
  assert (Hheld : ∀ g0, holds_join g0 c r = true →
            c ∈ subscribers (room_channel r) (sockets g0)).
  { intros g0 H. unfold holds_join in H. apply elem_of_subscribers.
    destruct (sockets g0 !! c) as [s |]; [| done].
    exists s. split; [done |]. by apply bool_decide_eq_true in H. }
  split_and!.
  - by rewrite (handleJoinRoom_meanwhile_run meanwhile g c r u messages d Hid Hfetch).
  - apply Hheld.
  - intros H. by apply JsSetFacts.jsset_has_true.
  - intros ->. subst group resumed waited. cbn [handle_all]. split_and!.
    + rewrite (handleJoinRoom_meanwhile_run [] g c r u messages d Hid Hfetch).
      rewrite (handleJoinRoom_run _ _ _ _ _ Hid), Hfetch. done.
    + apply Hheld. apply (holds_join_joined g c r u). by eapply identity_is_Some.
    + apply JsSetFacts.jsset_has_true. apply (is_member_joined g c r u).
Qed.
End JoinClaims.

(** ** Sequences of joinRoom and leaveRoom *)

Section LastCommandWins.
Context {DB : Type}.
Variable messageService : MessageService DB.
Implicit Types (g : Gateway DB) (c r u : string).

Lemma dispatch_join_state g c r u :
  identity g c = Some u →
  ∃ d, state_of (dispatch messageService c (JoinRoom r) g) = with_db (joined g c r u) d.
Proof.
  intros Hid. unfold dispatch, bind. rewrite (handleJoinRoom_run _ _ _ _ _ Hid).
  destruct (findAllByRoom messageService r u (db g)) as [[messages | e] d];
    by exists d.
Qed.

Lemma dispatch_leave_state g c r u :
  identity g c = Some u →
  state_of (dispatch messageService c (LeaveRoom r) g) = left_room g c r u.
Proof.
  intros Hid. unfold dispatch, bind. by rewrite (handleLeaveRoom_run _ _ _ _ Hid).
Qed.

(** One presence command of user [u]: the identities stay, and the user
    is a member afterwards exactly when the command was a join, in which
    case the socket that sent it holds a join. *)
Lemma presence_step g c r u cmd :
  identity g c = Some u →
  cmd = JoinRoom r ∨ cmd = LeaveRoom r →
  let g' := state_of (dispatch messageService c cmd g) in
  (∀ c', identity g' c' = identity g c')
  ∧ (is_member g' r u = true ↔ cmd = JoinRoom r)
  ∧ (cmd = JoinRoom r → holds_join g' c r = true).
Proof.
  intros Hid [-> | ->] g'; subst g'.
  - destruct (dispatch_join_state g c r u Hid) as [d ->]. split_and!.
    + intros c'. apply identity_joined.
    + split; [done |]. intros _. apply is_member_joined.
    + intros _. apply holds_join_joined. by eapply identity_is_Some.
  - rewrite (dispatch_leave_state g c r u Hid). split_and!.
    + intros c'. apply identity_left_room.
    + rewrite is_member_left_room. split; discriminate.
    + discriminate.
Qed.

Lemma run_commands_cons g x cs :
  (run_commands messageService (x :: cs) g).1
  = (run_commands messageService cs (state_of (dispatch messageService x.1 x.2 g))).1.
Proof. by destruct x. Qed.

(** C1, as the code has it. The member set is kept per user, and a leave
    takes the user out whatever other sockets of that user are in the
    room. After a non-empty sequence of [joinRoom]/[leaveRoom] commands
    for one room from sockets of one user, the user is in the room's
    member set if and only if the last command was a [joinRoom]; and when
    the user is in the set, a socket of that user holds a join. *)
Theorem last_presence_command_decides_membership cs : ∀ g u r,
  cs ≠ [] →
  presence_only g u r cs →
  let g' := (run_commands messageService cs g).1 in
  (is_member g' r u = true ↔ ∃ c, last cs = Some (c, JoinRoom r))
  ∧ (is_member g' r u = true →
     ∃ c, identity g' c = Some u ∧ holds_join g' c r = true).
Proof.
  induction cs as [| [c cmd] cs IH]; intros g u r Hne Hall; [done |].
  apply Forall_cons in Hall as [[Hid Hcmd] Hrest]. simpl in Hid, Hcmd.
  destruct (presence_step g c r u cmd Hid Hcmd) as (Hids & Hmem & Hheld).
  rewrite run_commands_cons. cbn [fst snd].
  destruct cs as [| y cs].
  - cbn [run_commands fst last]. split.
    + rewrite Hmem. split; [intros ->; by exists c |].
      intros [c' Hc']. by injection Hc' as _ ->.
    + intros Hin. exists c. rewrite Hids. split; [done |].
      apply Hheld. by apply Hmem.
  - rewrite last_cons_cons. apply IH; [done |].
    eapply Forall_impl; [exact Hrest |].
    intros x [Hx Hx']. by rewrite Hids.
Qed.
End LastCommandWins.

(** ** Disconnect *)

Section DisconnectFacts.
Context {DB : Type}.
Implicit Types (g : Gateway DB) (c r u : string) (m : list (string * list string)).

Lemma set_app_fresh {V} k (v v' : V) (pre rest : list (string * V)) :
  k ∉ JsMap.keys pre →
  JsMap.set k v' (pre ++ (k, v) :: rest) = pre ++ (k, v') :: rest.
Proof.
  unfold JsMap.keys. induction pre as [| [k0 v0] pre IH]; intros Hk; simpl.
  - by rewrite decide_True.
  - rewrite fmap_cons in Hk. apply not_elem_of_cons in Hk as [Hne Hk].
    rewrite decide_False by done. by rewrite IH.
Qed.

Lemma get_fmap_values (f : list string → list string) r m :
  JsMap.get r ((λ kv, (kv.1, f kv.2)) <$> m) = f <$> JsMap.get r m.
Proof.
  induction m as [| [k v] m IH]; [done |]. rewrite fmap_cons. simpl.
  by destruct (decide (r = k)).
Qed.

Lemma farewell_ext g g' u kv :
  sockets g = sockets g' → farewell g u kv = farewell g' u kv.
Proof.
  intros H. unfold farewell. destruct (JsSet.has u kv.2); [| done].
  by rewrite !(delivery_ext g g') by done.
Qed.

(** The loop of [handleDisconnect], started in the middle of the map:
    [pre] has been visited, [rest] is still to come. *)
Lemma forEach_leave_run u rest : ∀ pre g,
  roomMembers g = pre ++ rest →
  NoDup (JsMap.keys (pre ++ rest)) →
  forEach rest (leave_on_disconnect u) g =
    (Returned tt,
     {| roomMembers := pre ++ ((λ kv, (kv.1, JsSet.delete u kv.2)) <$> rest);
        sockets := sockets g; db := db g |},
     rest ≫= farewell g u).
Proof.
  induction rest as [| [k v] rest IH]; intros pre g Hm Hnd.
  - simpl. unfold ret. rewrite app_nil_r in *. rewrite <- Hm. by destruct g.
  - cbn [forEach]. unfold bind at 1.
    assert (Hk : k ∉ JsMap.keys pre).
    { unfold JsMap.keys in *. rewrite fmap_app in Hnd.
      apply NoDup_app in Hnd as (_ & Hd & _). intros Hin.
      apply (Hd k Hin). rewrite fmap_cons. apply elem_of_cons. by left. }
    set (g1 := state_of (leave_on_disconnect u v k g)).
    assert (Hg1 : leave_on_disconnect u v k g
                  = (Returned tt, g1, farewell g u (k, v))
                  ∧ roomMembers g1 = (pre ++ [(k, JsSet.delete u v)]) ++ rest
                  ∧ sockets g1 = sockets g ∧ db g1 = db g).
    { subst g1. unfold leave_on_disconnect, farewell. cbn [fst snd].
      destruct (JsSet.has u v) eqn:Hhas.
      - unfold bind, get_state, set_roomMembers, emit, state_of; simpl.
        split_and!; try done.
        rewrite Hm, set_app_fresh by done. by rewrite <- app_assoc.
      - unfold ret, state_of; simpl. split_and!; try done.
        apply JsSetFacts.jsset_has_false in Hhas.
        rewrite JsSetFacts.delete_absent by done. by rewrite Hm, <- app_assoc. }
    destruct Hg1 as (-> & Hm1 & Hs1 & Hd1).
    rewrite (IH (pre ++ [(k, JsSet.delete u v)]) g1 Hm1).
    + rewrite Hs1, Hd1, <- app_assoc. simpl.
      rewrite (list_bind_ext (farewell g1 u) (farewell g u) rest rest); [done | | done].
      intros kv. by apply farewell_ext.
    + unfold JsMap.keys in *. rewrite <- app_assoc. simpl.
      by rewrite fmap_app, fmap_cons in *.
Qed.

Lemma disconnect_run g c u :
  identity g c = Some u →
  u ≠ "" →
  NoDup (JsMap.keys (roomMembers g)) →
  disconnect c g =
    (Returned tt, gone g c u, roomMembers g ≫= farewell (gone g c u) u).
Proof.
  intros Hid Hu Hnd.
  unfold disconnect, handleDisconnect, bind at 1, socket_disconnect, alter_socket.
  unfold try_catch, bind, get_state. cbn [fst snd]. simpl.
  rewrite identity_alter by done. rewrite Hid.
  rewrite bool_decide_eq_false_2 by done.
  erewrite (forEach_leave_run u (roomMembers g) []); [| done | done].
  simpl. unfold gone. reflexivity.
Qed.

(** Without an identity (or with the empty one) [handleDisconnect] does
    nothing. *)
Lemma handleDisconnect_anonymous g c :
  identity g c = None ∨ identity g c = Some "" →
  handleDisconnect c g = (Returned tt, g, []).
Proof.
  unfold handleDisconnect, try_catch, bind, get_state, ret; simpl.
  by intros [-> | ->].
Qed.

Lemma membersOf_gone g c r u :
  membersOf (gone g c u) r = JsSet.delete u (membersOf g r).
Proof.
  unfold membersOf, gone; simpl. rewrite get_fmap_values.
  by destruct (JsMap.get r (roomMembers g)).
Qed.
End DisconnectFacts.

Section DisconnectClaims.
Context {DB : Type}.
Implicit Types (g : Gateway DB) (c r u : string) (m : list (string * list string)).

Lemma count_emitted_app ev ch (l1 l2 : list Delivery) :
  count_emitted ev ch (l1 ++ l2) = count_emitted ev ch l1 + count_emitted ev ch l2.
Proof. unfold count_emitted. by rewrite filter_app, List.length_app. Qed.

Lemma count_farewell_entry ev g u r k v :
  ev = "roomMembers" ∨ ev = "userLeft" →
  count_emitted ev (room_channel r) (farewell g u (k, v)) =
    if decide (k = r) then (if JsSet.has u v then 1 else 0) else 0.
Proof.
  intros Hev. unfold farewell, count_emitted. cbn [fst snd].
  destruct (JsSet.has u v); [| by destruct (decide (k = r))].
  destruct (decide (k = r)) as [-> | Hne].
  - destruct Hev as [-> | ->].
    + rewrite filter_cons_True by done.
      rewrite filter_cons_False by (simpl; intros [_ ?]; discriminate). done.
    + rewrite filter_cons_False by (simpl; intros [_ ?]; discriminate).
      rewrite filter_cons_True by done. done.
  - rewrite !filter_cons_False; [done | |];
      unfold delivery; cbn [target emission]; intros [Ht _];
      apply Hne, room_channel_inj; congruence.
Qed.

Lemma count_farewell ev g u r m :
  ev = "roomMembers" ∨ ev = "userLeft" →
  NoDup (JsMap.keys m) →
  count_emitted ev (room_channel r) (m ≫= farewell g u) =
    if JsSet.has u (default JsSet.empty (JsMap.get r m)) then 1 else 0.
Proof.
  intros Hev. unfold JsMap.keys. induction m as [| [k v] m IH]; intros Hnd; [done |].
  rewrite fmap_cons in Hnd. apply NoDup_cons in Hnd as [Hk Hnd].
  rewrite bind_cons, count_emitted_app, (count_farewell_entry _ _ _ _ _ _ Hev).
  rewrite (IH Hnd). cbn [JsMap.get].
  destruct (decide (k = r)) as [-> | Hne].
  - rewrite decide_True by done.
    rewrite (proj2 (JsMapFacts.get_None_keys r m) Hk). simpl.
    by destruct (JsSet.has u v).
  - by rewrite decide_False by done.
Qed.

Lemma get_elem_of k (v : list string) m :
  NoDup (JsMap.keys m) → (k, v) ∈ m → JsMap.get k m = Some v.
Proof.
  unfold JsMap.keys. induction m as [| [k0 v0] m IH]; intros Hnd Hin.
  - by apply elem_of_nil in Hin.
  - rewrite fmap_cons in Hnd. apply NoDup_cons in Hnd as [Hk Hnd].
    cbn [JsMap.get]. apply elem_of_cons in Hin as [Heq | Hin].
    + injection Heq as -> ->. by rewrite decide_True.
    + rewrite decide_False; [by apply IH |].
      intros ->. apply Hk. apply list_elem_of_fmap. by exists (k0, v).
Qed.

Lemma subscribers_closed_eq ch (ss : gmap string Socket) c :
  subscribers ch (alter closed c ss) = subscribers ch ss ∖ {[c]}.
Proof.
  apply set_eq. intros c'.
  rewrite elem_of_difference, elem_of_singleton, !elem_of_subscribers.
  destruct (decide (c = c')) as [-> | Hne].
  - rewrite lookup_alter_eq. split; [| tauto].
    intros (s & Hs & Hin). destruct (ss !! c') as [s0 |]; [| done].
    simpl in Hs. inversion Hs; subst s. simpl in Hin.
    by apply not_elem_of_empty in Hin.
  - rewrite lookup_alter_ne by done. split; [| tauto]. intros H. split; [done | congruence].
Qed.

(** C2, as the code has it. The gateway keeps no record of the rooms a
    socket joined: at a disconnect it goes through the membership map by
    user. For each room whose member set holds the user of the closed
    socket it sends one [roomMembers] and then one [userLeft] to the
    room's channel, which the closed socket has already left; rooms
    whose member set does not hold the user get nothing; afterwards the
    user is in no member set. So the events are per room, not per room
    and socket. *)
Theorem disconnect_announces_once_per_member_room g c u :
  identity g c = Some u →
  u ≠ "" →
  NoDup (JsMap.keys (roomMembers g)) →
  let res := disconnect c g in
  outcome_of res = Returned tt
  ∧ log_of res = roomMembers g ≫= farewell (state_of res) u
  ∧ (∀ r, count_emitted "userLeft" (room_channel r) (log_of res)
          = (if is_member g r u then 1 else 0)
        ∧ count_emitted "roomMembers" (room_channel r) (log_of res)
          = (if is_member g r u then 1 else 0))
  ∧ (∀ dl, dl ∈ log_of res →
       ∃ r, is_member g r u = true
            ∧ target (emission dl) = ToRoom (room_channel r)
            ∧ receivers dl = subscribers (room_channel r) (sockets g) ∖ {[c]})
  ∧ (∀ r, is_member (state_of res) r u = false).
Proof.
  intros Hid Hu Hnd res. subst res. rewrite (disconnect_run g c u Hid Hu Hnd).
  unfold outcome_of, log_of, state_of; cbn [fst snd]. split_and!.
  - done.
  - done.
  - intros r. unfold is_member, membersOf.
    rewrite !count_farewell by (done || by (left + right)). done.
  - intros dl Hin. apply list_elem_of_bind in Hin as ([k v] & Hdl & Hkv).
    exists k. unfold farewell in Hdl. cbn [fst snd] in Hdl.
    destruct (JsSet.has u v) eqn:Hhas; [| by apply elem_of_nil in Hdl].
    split.
    { unfold is_member, membersOf. by rewrite (get_elem_of k v _ Hnd Hkv). }
    apply elem_of_cons in Hdl as [-> | Hdl];
      [| apply elem_of_cons in Hdl as [-> | Hdl]; [| by apply elem_of_nil in Hdl]];
      (split; [done |]); unfold delivery, reached, gone; simpl;
      apply subscribers_closed_eq.
  - intros r. unfold is_member. rewrite membersOf_gone. apply JsSetFacts.has_delete.
Qed.
End DisconnectClaims.

(** ** Credentials are fixed at the handshake *)

Section CredentialFacts.
Context {DB : Type}.
Variable messageService : MessageService DB.
Variable jwtService : JwtService.
Implicit Types (g : Gateway DB) (c r u : string).

Lemma keeps_ret {A} (a : A) : keeps_credentials (DB:=DB) (ret a).
Proof. done. Qed.

Lemma keeps_throw {A} e : keeps_credentials (DB:=DB) (throw (A:=A) e).
Proof. done. Qed.

Lemma keeps_get_state : keeps_credentials (DB:=DB) get_state.
Proof. done. Qed.

Lemma keeps_set_roomMembers m : keeps_credentials (DB:=DB) (set_roomMembers m).
Proof. done. Qed.

Lemma keeps_emit t ev p : keeps_credentials (DB:=DB) (emit t ev p).
Proof. done. Qed.

Lemma keeps_call {A} (op : DB → Outcome A * DB) : keeps_credentials (call op).
Proof. intros g c. unfold call, state_of. by destruct (op (db g)). Qed.

Lemma keeps_user_sub c : keeps_credentials (DB:=DB) (user_sub c).
Proof. intros g c'. unfold user_sub, state_of. by destruct (identity g c). Qed.

Lemma keeps_failure_reply e : keeps_credentials (DB:=DB) (failure_reply e).
Proof. by destruct e. Qed.

Lemma keeps_with_rooms f c : keeps_credentials (DB:=DB) (alter_socket (with_rooms f) c).
Proof.
  intros g c'. unfold alter_socket, state_of, credentials; simpl.
  destruct (decide (c = c')) as [-> | Hne].
  - rewrite lookup_alter_eq. by destruct (sockets g !! c').
  - by rewrite lookup_alter_ne.
Qed.

Lemma keeps_bind {A B} (m : M (DB:=DB) A) (k : A → M (DB:=DB) B) :
  keeps_credentials m → (∀ a, keeps_credentials (k a)) → keeps_credentials (bind m k).
Proof.
  intros Hm Hk g c. specialize (Hm g c). unfold bind, state_of in *.
  destruct (m g) as [[[a | e] g1] l1]; simpl in *; [| done].
  specialize (Hk a g1 c). unfold state_of in Hk.
  destruct (k a g1) as [[o g2] l2]; simpl in *. congruence.
Qed.

Lemma keeps_try_catch {A} (m : M (DB:=DB) A) (h : Thrown → M (DB:=DB) A) :
  keeps_credentials m → (∀ e, keeps_credentials (h e)) →
  keeps_credentials (try_catch m h).
Proof.
  intros Hm Hh g c. specialize (Hm g c). unfold try_catch, state_of in *.
  destruct (m g) as [[[a | e] g1] l1]; simpl in *; [done |].
  specialize (Hh e g1 c). unfold state_of in Hh.
  destruct (h e g1) as [[o g2] l2]; simpl in *. congruence.
Qed.

Lemma keeps_forEach entries (f : list string → string → M (DB:=DB) unit) :
  (∀ v k, keeps_credentials (f v k)) → keeps_credentials (forEach entries f).
Proof.
  intros Hf. induction entries as [| [k v] entries IH]; simpl.
  - apply keeps_ret.
  - apply keeps_bind; [apply Hf | by intros _].
Qed.

Local Ltac keeps :=
  repeat first
    [ apply keeps_bind; [| intros ?]
    | apply keeps_try_catch; [| intros ?]
    | apply keeps_ret | apply keeps_get_state | apply keeps_set_roomMembers
    | apply keeps_emit | apply keeps_call | apply keeps_user_sub
    | apply keeps_failure_reply | apply keeps_with_rooms
    | match goal with |- keeps_credentials (if ?b then _ else _) => destruct b end
    | match goal with |- keeps_credentials (match ?o with _ => _ end) => destruct o end ].

Lemma keeps_handleJoinRoom c r :
  keeps_credentials (handleJoinRoom messageService c r).
Proof. unfold handleJoinRoom, track_join, announce_join, socket_join. keeps. Qed.

Lemma keeps_handleLeaveRoom c r : keeps_credentials (DB:=DB) (handleLeaveRoom c r).
Proof. unfold handleLeaveRoom, socket_leave. keeps. Qed.

Lemma keeps_handleSendMessage c dto :
  keeps_credentials (handleSendMessage messageService c dto).
Proof. unfold handleSendMessage. keeps. Qed.

Lemma keeps_handleUpdateMessage c i t :
  keeps_credentials (handleUpdateMessage messageService c i t).
Proof. unfold handleUpdateMessage. keeps. Qed.

Lemma keeps_handleDeleteMessage c i :
  keeps_credentials (handleDeleteMessage messageService c i).
Proof. unfold handleDeleteMessage. keeps. Qed.

Lemma keeps_handleGetRoomMembers c r :
  keeps_credentials (DB:=DB) (handleGetRoomMembers c r).
Proof. unfold handleGetRoomMembers. keeps. Qed.

Lemma keeps_handleDisconnect c : keeps_credentials (DB:=DB) (handleDisconnect c).
Proof.
  unfold handleDisconnect. keeps.
  apply keeps_forEach. intros v k. unfold leave_on_disconnect. keeps.
Qed.

Lemma keeps_dispatch c cmd : keeps_credentials (dispatch messageService c cmd).
Proof.
  destruct cmd; simpl; (apply keeps_bind; [| intros ?; apply keeps_ret]).
  - apply keeps_handleJoinRoom.
  - apply keeps_handleLeaveRoom.
  - apply keeps_handleSendMessage.
  - apply keeps_handleUpdateMessage.
  - apply keeps_handleDeleteMessage.
  - apply keeps_handleGetRoomMembers.
Qed.

(** What [handleConnection] makes of a handshake. *)
Lemma connect_run g c token :
  connect jwtService c token g =
    if falsy token then (Returned tt, rejected g c token, [])
    else match verify jwtService (default "" token) with
         | Returned p => (Returned tt, accepted g c token p, [])
         | Threw e => (Returned tt, rejected g c token, [])
         end.
Proof.
  unfold connect, bind at 1. cbn [fst snd].
  unfold handleConnection, try_catch, bind at 1, get_state. cbn [sockets].
  rewrite lookup_insert_eq. cbn [mbind option_bind fresh_socket handshake_token].
  destruct (falsy token) eqn:Hf.
  - unfold socket_disconnect, alter_socket, rejected; simpl.
    by rewrite alter_insert_eq.
  - unfold bind, lift_outcome, set_data, socket_join, socket_disconnect,
      console_error, alter_socket, ret, rejected, accepted.
    destruct (verify jwtService (default "" token)) as [p | e]; simpl.
    + by rewrite !alter_insert_eq.
    + by rewrite alter_insert_eq.
Qed.

Lemma admission_invariant_keeps {A} (m : M (DB:=DB) A) g :
  keeps_credentials m →
  admission_invariant jwtService g →
  admission_invariant jwtService (state_of (m g)).
Proof. intros Hm Hinv c cr Hcr. rewrite Hm in Hcr. by eapply Hinv. Qed.

Lemma admission_invariant_reachable g :
  reachable messageService jwtService g → admission_invariant jwtService g.
Proof.
  induction 1 as [d | g i Hreach IH Hen].
  - intros c cr. unfold credentials; simpl. by rewrite lookup_empty.
  - destruct i as [c token | c cmd | c]; cbn [step].
    + rewrite connect_run. intros c' cr.
      assert (Hother : c ≠ c' →
        ∀ s, credentials {| roomMembers := roomMembers g;
                            sockets := <[c := s]> (sockets g); db := db g |} c'
             = Some cr → vouched jwtService cr).
      { intros Hne s Hcr. apply (IH c' cr). unfold credentials in *; simpl in *.
        by rewrite lookup_insert_ne in Hcr. }
      destruct (decide (c = c')) as [<- | Hne].
      * unfold state_of, credentials.
        destruct (falsy token) eqn:Hf; simpl.
        { rewrite lookup_insert_eq. simpl. intros [= <-] [Hc | [? Hd]]; done. }
        destruct (verify jwtService (default "" token)) as [p | e] eqn:Hv; simpl.
        { rewrite lookup_insert_eq. simpl. intros [= <-] _. simpl.
          destruct token as [t |]; [| done]. by exists t, p. }
        { rewrite lookup_insert_eq. simpl. intros [= <-] [Hc | [? Hd]]; done. }
      * unfold state_of.
        destruct (falsy token); [by apply Hother |].
        destruct (verify jwtService (default "" token)); by apply Hother.
    + apply admission_invariant_keeps; [| done].
      apply keeps_bind; [apply keeps_dispatch | intros ?; apply keeps_ret].
    + unfold disconnect. intros c' cr Hcr.
      revert Hcr. unfold bind, state_of, socket_disconnect, alter_socket. simpl.
      pose proof (keeps_handleDisconnect c
        {| roomMembers := roomMembers g; sockets := alter closed c (sockets g);
           db := db g |} c') as Hk.
      unfold state_of in Hk.
      destruct (handleDisconnect c _) as [[o g2] l2]; simpl in *.
      rewrite Hk. unfold credentials; simpl.
      destruct (decide (c = c')) as [<- | Hne].
      * rewrite lookup_alter_eq.
        destruct (sockets g !! c) as [s |] eqn:Hs; simpl; [| done].
        intros [= <-] [Hc | Hd]; [done |]. simpl in *.
        apply (IH c (handshake_token s, data s, connected s)).
        { unfold credentials. by rewrite Hs. }
        by right.
      * rewrite lookup_alter_ne by done. apply (IH c' cr).
Qed.
End CredentialFacts.

(** ** The membership map keeps its keys apart *)

Section MapShape.
Context {DB : Type}.
Variable messageService : MessageService DB.
Variable jwtService : JwtService.
Implicit Types (g : Gateway DB) (c r u : string).

Lemma roomMembers_handleJoinRoom g c r :
  roomMembers (state_of (handleJoinRoom messageService c r g)) =
    match identity g c with
    | Some u => JsMap.set r (JsSet.add u (membersOf g r)) (roomMembers g)
    | None => roomMembers g
    end.
Proof.
  destruct (identity g c) as [u |] eqn:Hid.
  - by destruct (handleJoinRoom_state messageService g c r u Hid) as [d ->].
  - unfold handleJoinRoom, track_join, bind, socket_join, alter_socket, user_sub,
      state_of; simpl.
    rewrite identity_alter by done. by rewrite Hid.
Qed.

Lemma roomMembers_handleLeaveRoom g c r :
  roomMembers (state_of (handleLeaveRoom c r g)) =
    match identity g c with
    | Some u => roomMembers (left_room g c r u)
    | None => roomMembers g
    end.
Proof.
  destruct (identity g c) as [u |] eqn:Hid.
  - by rewrite (handleLeaveRoom_run _ _ _ _ Hid).
  - unfold handleLeaveRoom, bind, socket_leave, alter_socket, user_sub, state_of; simpl.
    rewrite identity_alter by done. by rewrite Hid.
Qed.

Lemma roomMembers_handleSendMessage g c dto :
  roomMembers (state_of (handleSendMessage messageService c dto g)) = roomMembers g.
Proof.
  unfold handleSendMessage, try_catch, bind, user_sub, call, emit, ret, state_of.
  destruct (identity g c); simpl; [| done].
  destruct (create _ _ _ _) as [[m | e] d]; simpl; [done | by destruct e].
Qed.

Lemma roomMembers_handleUpdateMessage g c i t :
  roomMembers (state_of (handleUpdateMessage messageService c i t g)) = roomMembers g.
Proof.
  unfold handleUpdateMessage, try_catch, bind, user_sub, call, emit, ret, state_of.
  destruct (identity g c); simpl; [| done].
  destruct (update _ _ _ _ _) as [[m | e] d]; simpl; [done | by destruct e].
Qed.

Lemma roomMembers_handleDeleteMessage g c i :
  roomMembers (state_of (handleDeleteMessage messageService c i g)) = roomMembers g.
Proof.
  unfold handleDeleteMessage, try_catch, bind, user_sub, call, emit, ret, state_of.
  destruct (identity g c); simpl; [| done].
  destruct (findOne _ _ _ _) as [[m | e] d]; simpl; [| by destruct e].
  destruct (remove _ _ _ _) as [[[] | e] d']; simpl; [done | by destruct e].
Qed.

(** The handlers with a [catch] block always return a result. *)
Lemma caught_handlers_return g c :
  (∀ dto, ∃ reply, outcome_of (handleSendMessage messageService c dto g) = Returned reply)
  ∧ (∀ i t, ∃ reply,
       outcome_of (handleUpdateMessage messageService c i t g) = Returned reply)
  ∧ (∀ i, ∃ reply, outcome_of (handleDeleteMessage messageService c i g) = Returned reply)
  ∧ (∀ r, ∃ reply, outcome_of (handleGetRoomMembers c r g) = Returned reply).
Proof.
  split_and!.
  - intros dto.
    unfold handleSendMessage, try_catch, bind, user_sub, call, emit, ret, outcome_of.
    destruct (identity g c); simpl; [| by eexists].
    destruct (create _ _ _ _) as [[m | e] d]; simpl; [by eexists |].
    destruct e; by eexists.
  - intros i t.
    unfold handleUpdateMessage, try_catch, bind, user_sub, call, emit, ret, outcome_of.
    destruct (identity g c); simpl; [| by eexists].
    destruct (update _ _ _ _ _) as [[m | e] d]; simpl; [by eexists |].
    destruct e; by eexists.
  - intros i.
    unfold handleDeleteMessage, try_catch, bind, user_sub, call, emit, ret, outcome_of.
    destruct (identity g c); simpl; [| by eexists].
    destruct (findOne _ _ _ _) as [[m | e] d]; simpl; [| destruct e; by eexists].
    destruct (remove _ _ _ _) as [[[] | e] d']; simpl; [by eexists |].
    destruct e; by eexists.
  - intros r. by eexists.
Qed.

Lemma roomMembers_handleGetRoomMembers g c r :
  roomMembers (state_of (handleGetRoomMembers c r g)) = roomMembers g.
Proof. done. Qed.

Lemma keys_fmap_values (f : list string → list string) (m : list (string * list string)) :
  JsMap.keys ((λ kv, (kv.1, f kv.2)) <$> m) = JsMap.keys m.
Proof.
  unfold JsMap.keys. induction m as [| [k v] m IH]; [done |].
  rewrite !fmap_cons. simpl. by rewrite IH.
Qed.

Lemma disconnect_anonymous g c :
  identity g c = None ∨ identity g c = Some "" →
  disconnect c g =
    (Returned tt,
     {| roomMembers := roomMembers g; sockets := alter closed c (sockets g);
        db := db g |}, []).
Proof.
  intros H. unfold disconnect, bind, socket_disconnect, alter_socket.
  rewrite handleDisconnect_anonymous; [done |].
  by rewrite identity_alter.
Qed.

Lemma keys_disconnect g c :
  NoDup (JsMap.keys (roomMembers g)) →
  JsMap.keys (roomMembers (state_of (disconnect c g))) = JsMap.keys (roomMembers g).
Proof.
  intros Hnd. destruct (identity g c) as [u |] eqn:Hid.
  - destruct (decide (u = "")) as [-> | Hu].
    + rewrite disconnect_anonymous; [done | by right].
    + rewrite (disconnect_run g c u Hid Hu Hnd). apply keys_fmap_values.
  - rewrite disconnect_anonymous; [done | by left].
Qed.

Lemma state_of_bind_pure {A B} (m : M (DB:=DB) A) (k : A → M (DB:=DB) B) g :
  (∀ a g', state_of (k a g') = g') → state_of (bind m k g) = state_of (m g).
Proof.
  intros Hk. unfold bind, state_of in *.
  destruct (m g) as [[[a | e] g1] l1]; simpl; [| done].
  specialize (Hk a g1). by destruct (k a g1) as [[o g2] l2].
Qed.

Lemma keys_dispatch g c cmd :
  NoDup (JsMap.keys (roomMembers g)) →
  NoDup (JsMap.keys (roomMembers (state_of (dispatch messageService c cmd g)))).
Proof.
  intros Hnd.
  destruct cmd as [r | r | dto | i t | i | r]; cbn [dispatch];
    rewrite state_of_bind_pure by done.
  - rewrite roomMembers_handleJoinRoom.
    destruct (identity g c); [by apply JsMapFacts.NoDup_keys_set | done].
  - rewrite roomMembers_handleLeaveRoom.
    destruct (identity g c); [| done]. unfold left_room; simpl.
    destruct (JsMap.has r (roomMembers g)); [by apply JsMapFacts.NoDup_keys_set | done].
  - by rewrite roomMembers_handleSendMessage.
  - by rewrite roomMembers_handleUpdateMessage.
  - by rewrite roomMembers_handleDeleteMessage.
  - by rewrite roomMembers_handleGetRoomMembers.
Qed.

(** In every state the gateway can reach, the membership map has each room
    once, as a JavaScript [Map] does. *)
Lemma reachable_keys_NoDup g :
  reachable messageService jwtService g → NoDup (JsMap.keys (roomMembers g)).
Proof.
  induction 1 as [d | g i Hreach IH Hen]; [apply NoDup_nil_2 |].
  destruct i as [c token | c cmd | c]; cbn [step].
  - rewrite connect_run. unfold state_of.
    destruct (falsy token); [done |].
    by destruct (verify jwtService (default "" token)).
  - rewrite state_of_bind_pure by done. by apply keys_dispatch.
  - by rewrite keys_disconnect.
Qed.
End MapShape.

(** ** The handshake *)

Section AdmissionClaims.
Context {DB : Type}.
Variable messageService : MessageService DB.
Variable jwtService : JwtService.
Implicit Types (g : Gateway DB) (c : string).

(** C8. A handshake with no token, an empty token or a token that
    [verify] rejects ends with the socket closed, without a user, in no
    room, and with nothing emitted or changed in the membership map; the
    [handleDisconnect] that the closing triggers finds no user and does
    nothing.
    And in every state the gateway can reach, a socket that is open or
    has a user attached carries a token that [verify] accepted, with the
    user [verify] returned: no socket is let in without a valid
    identity. *)
Theorem unauthenticated_never_registered g :
  reachable messageService jwtService g →
  (∀ c token,
     falsy token = true ∨ (∃ e, verify jwtService (default "" token) = Threw e) →
     let res := connect jwtService c token g in
     outcome_of res = Returned tt
     ∧ log_of res = []
     ∧ roomMembers (state_of res) = roomMembers g
     ∧ sockets (state_of res) !! c
       = Some {| handshake_token := token; data := None; rooms := ∅;
                 connected := false |}
     ∧ (∀ c', c' ≠ c → sockets (state_of res) !! c' = sockets g !! c')
     ∧ handleDisconnect c (state_of res) = (Returned tt, state_of res, []))
  ∧ (∀ c s,
       sockets g !! c = Some s →
       connected s = true ∨ is_Some (data s) →
       ∃ t p, handshake_token s = Some t ∧ falsy (Some t) = false
              ∧ verify jwtService t = Returned p ∧ data s = Some p).
Proof.
  intros Hreach. split.
  - intros c token Hbad res. subst res. rewrite connect_run.
    assert (Hrej : ∀ x : Outcome unit * Gateway DB * list Delivery,
              x = (Returned tt, rejected g c token, []) →
              outcome_of x = Returned tt ∧ log_of x = []
              ∧ roomMembers (state_of x) = roomMembers g
              ∧ sockets (state_of x) !! c
                = Some {| handshake_token := token; data := None; rooms := ∅;
                          connected := false |}
              ∧ (∀ c', c' ≠ c → sockets (state_of x) !! c' = sockets g !! c')
              ∧ handleDisconnect c (state_of x) = (Returned tt, state_of x, [])).
    { intros x ->. unfold outcome_of, log_of, state_of, rejected; simpl.
      split_and!; try done.
      - by rewrite lookup_insert_eq.
      - intros c' Hne. by rewrite lookup_insert_ne.
      - apply handleDisconnect_anonymous. left.
        unfold identity; simpl. by rewrite lookup_insert_eq. }
    destruct (falsy token) eqn:Hf; [by apply Hrej |].
    destruct Hbad as [Hbad | [e He]]; [discriminate |].
    rewrite He. by apply Hrej.
  - intros c s Hs Hopen.
    pose proof (admission_invariant_reachable _ _ g Hreach c
                  (handshake_token s, data s, connected s)) as Hinv.
    unfold credentials, vouched in Hinv. rewrite Hs in Hinv. simpl in Hinv.
    apply Hinv; [done |]. tauto.
Qed.
End AdmissionClaims.

(** ** Runs of the sample deployment *)

Import Sample.

(** C3. The error of a [joinRoom] is not caught by the handler: for user
    [u2], who takes no part in room [B], the history fetch throws and
    [handleJoinRoom] throws with it, with nothing sent to anybody; the socket
    is in the room's channel and the user in the member set all the same.
    [handleSendMessage] turns the same refusal into a failure result. *)
Theorem joinRoom_error_escapes_handler :
  outcome_of (handleJoinRoom svc "c3" "B" lobby) = Threw forbidden
  ∧ log_of (handleJoinRoom svc "c3" "B" lobby) = []
  ∧ holds_join (state_of (handleJoinRoom svc "c3" "B" lobby)) "c3" "B" = true
  ∧ is_member (state_of (handleJoinRoom svc "c3" "B" lobby)) "B" "u2" = true
  ∧ outcome_of (handleSendMessage svc "c3" (hi "B") lobby)
    = Returned (Failure "Forbidden").
Proof. vm_compute. by repeat split. Qed.

Lemma two_sockets_script_presence_only :
  presence_only lobby "u1" "A" two_sockets_script.
Proof.
  unfold presence_only, two_sockets_script.
  repeat apply Forall_cons_2; try apply Forall_nil_2;
    (split; [vm_compute; reflexivity | simpl; auto]).
Qed.

(** C1 fails as stated: with two sockets of [u1] in room [A], the leave of
    the second takes [u1] out of the member set although the first still
    holds its join. *)
Lemma leave_drops_user_with_socket_still_joined :
  presence_only lobby "u1" "A" two_sockets_script
  ∧ ¬ (is_member second_left "A" "u1" = true
       ↔ ∃ c, identity second_left c = Some "u1" ∧ holds_join second_left c "A" = true).
Proof.
  split.
  - apply two_sockets_script_presence_only.
  - intros [_ H].
    assert (Hm : is_member second_left "A" "u1" = false) by (vm_compute; reflexivity).
    rewrite Hm in H. discriminate H.
    exists "c1". split; vm_compute; reflexivity.
Qed.

(** C2 fails as stated: the first socket of [u1] is in room [A], but after
    the leave of the second socket [u1] is not in the member set, and the
    disconnect of the first socket sends nothing to [A]. *)
Lemma disconnect_silent_for_joined_room :
  ¬ (∀ r, holds_join second_left "c1" r = true →
          count_emitted "userLeft" (room_channel r) (log_of (disconnect "c1" second_left)) = 1
          ∧ count_emitted "roomMembers" (room_channel r)
              (log_of (disconnect "c1" second_left)) = 1).
Proof.
  intros H. destruct (H "A") as [H1 _]; [vm_compute; reflexivity |].
  vm_compute in H1. discriminate H1.
Qed.

(** C4 fails as stated: the socket of [u2] has not joined room [A], and its
    [sendMessage] for [A] is stored and broadcast. *)
Lemma sendMessage_without_join_is_broadcast :
  ¬ (holds_join lobby "c3" "A" = false →
     (∃ e, outcome_of (handleSendMessage svc "c3" (hi "A") lobby) = Returned (Failure e))
     ∧ log_of (handleSendMessage svc "c3" (hi "A") lobby) = []).
Proof.
  intros H. destruct H as [_ H]; [vm_compute; reflexivity |].
  vm_compute in H. discriminate H.
Qed.


(** A [leaveRoom] of the joining socket handled while its [joinRoom] waits
    for the history: the snapshot that the join then sends lists [u2]
    alone and reaches the socket of [u2] alone. *)
Lemma join_overtaken_by_its_leave :
  (λ dl, (event (emission dl), payload (emission dl), elements (receivers dl)))
    <$> log_of (handleJoinRoom_meanwhile svc jwt Demo.leaves_at_once "c1" "A" Demo.u2_in)
  = [("roomMembers", PMembers ["u2"], ["c3"]);
     ("userLeft", PPresence "u1" "A", ["c3"]);
     ("messageHistory", PMessages [], ["c1"]);
     ("roomMembers", PMembers ["u2"], ["c3"]);
     ("userJoined", PPresence "u1" "A", ["c3"])].
Proof. vm_compute. reflexivity. Qed.

(** C6 fails as stated: when the second socket of [u1] joins room [A] with
    the first already in it, the [roomMembers] snapshot comes before
    [userJoined], not after, and it also reaches the first socket. *)
Lemma join_sends_members_before_arrival :
  events (log_of (handleJoinRoom svc "c2" "A" (after (handleJoinRoom svc "c1" "A") lobby)))
  = ["messageHistory"; "roomMembers"; "userJoined"]
  ∧ ¬ Forall (λ d, event (emission d) = "roomMembers" → receivers d = {["c2"]})
        (log_of (handleJoinRoom svc "c2" "A" (after (handleJoinRoom svc "c1" "A") lobby))).
Proof.
  split; [vm_compute; reflexivity |].
  intros H. apply Forall_cons in H as [_ H]. apply Forall_cons in H as [H _].
  specialize (H eq_refl).
  assert (Hin : "c1" ∈ receivers
            (delivery (with_db (joined (after (handleJoinRoom svc "c1" "A") lobby)
                                   "c2" "A" "u1") [])
               (ToRoom (room_channel "A")) "roomMembers"
               (PMembers ["u1"]))).
  { apply (bool_decide_unpack _). vm_compute. exact I. }
  change (receivers
            (delivery (with_db (joined (after (handleJoinRoom svc "c1" "A") lobby)
                                   "c2" "A" "u1") [])
               (ToRoom (room_channel "A")) "roomMembers"
               (PMembers ["u1"])) = {["c2"]}) in H.
  rewrite H in Hin. apply elem_of_singleton in Hin. discriminate Hin.
Qed.

(** C7 fails as stated: with [u1] and [u2] in room [A], the leave of [u1]
    sends its two events to the socket of [u2] only; the leaver gets
    neither. *)
Lemma leaver_gets_no_announcement :
  holds_join two_users_in "c1" "A" = true
  ∧ events (log_of (handleLeaveRoom "c1" "A" two_users_in)) = ["roomMembers"; "userLeft"]
  ∧ Forall (λ d, "c1" ∉ receivers d) (log_of (handleLeaveRoom "c1" "A" two_users_in)).
Proof.
  split_and!; [vm_compute; reflexivity | vm_compute; reflexivity |].
  apply (bool_decide_unpack _). vm_compute. exact I.
Qed.

Lemma lobby_reachable : reachable svc jwt lobby.
Proof.
  unfold lobby, after.
  apply (reachable_step svc jwt _ (Connect "c3" (Some "token-u2")));
    [| vm_compute; reflexivity].
  apply (reachable_step svc jwt _ (Connect "c2" (Some "token-u1")));
    [| vm_compute; reflexivity].
  apply (reachable_step svc jwt _ (Connect "c1" (Some "token-u1")));
    [| vm_compute; reflexivity].
  apply reachable_boot.
Qed.

Lemma last_presence_command_decides_membership_witness :
  two_sockets_script ≠ []
  ∧ presence_only lobby "u1" "A" two_sockets_script
  ∧ ((is_member second_left "A" "u1" = true
      ↔ ∃ c, last two_sockets_script = Some (c, JoinRoom "A"))
     ∧ (is_member second_left "A" "u1" = true →
        ∃ c, identity second_left c = Some "u1" ∧ holds_join second_left c "A" = true)).
Proof.
  assert (H1 : two_sockets_script ≠ []) by discriminate.
  pose proof two_sockets_script_presence_only as H2.
  refine (conj H1 (conj H2 _)).
  exact (last_presence_command_decides_membership svc two_sockets_script
           lobby "u1" "A" H1 H2).
Defined.

Lemma disconnect_announces_once_per_member_room_witness :
  identity two_users_in "c1" = Some "u1"
  ∧ "u1" ≠ ""
  ∧ NoDup (JsMap.keys (roomMembers two_users_in))
  ∧ count_emitted "userLeft" (room_channel "A") (log_of (disconnect "c1" two_users_in)) = 1
  ∧ count_emitted "userLeft" (room_channel "B") (log_of (disconnect "c1" two_users_in)) = 0.
Proof.
  assert (H1 : identity two_users_in "c1" = Some "u1") by (vm_compute; reflexivity).
  assert (H2 : "u1" ≠ "") by discriminate.
  assert (H3 : NoDup (JsMap.keys (roomMembers two_users_in))).
  { apply (bool_decide_unpack _). vm_compute. exact I. }
  refine (conj H1 (conj H2 (conj H3 _))).
  destruct (disconnect_announces_once_per_member_room two_users_in "c1" "u1" H1 H2 H3)
    as (_ & _ & Hcount & _).
  split.
  - destruct (Hcount "A") as [-> _]. vm_compute. reflexivity.
  - destruct (Hcount "B") as [-> _]. vm_compute. reflexivity.
Defined.

Lemma sendMessage_broadcasts_iff_persisted_witness :
  identity lobby "c3" = Some "u2"
  ∧ events (log_of (handleSendMessage svc "c3" (hi "A") lobby)) = ["newMessage"]
  ∧ handleSendMessage svc "c3" (hi "B") lobby = (Returned (Failure "Forbidden"), lobby, []).
Proof.
  assert (H1 : identity lobby "c3" = Some "u2") by (vm_compute; reflexivity).
  refine (conj H1 _). split.
  - rewrite (sendMessage_broadcasts_iff_persisted svc lobby "c3" (hi "A") "u2" H1).
    vm_compute. reflexivity.
  - rewrite (sendMessage_broadcasts_iff_persisted svc lobby "c3" (hi "B") "u2" H1).
    reflexivity.
Defined.


Lemma join_announces_members_then_arrival_witness :
  identity Demo.u2_in "c1" = Some "u1"
  ∧ findAllByRoom svc "A" "u1" (db Demo.u2_in) = (Returned [], [])
  ∧ events (log_of (handleJoinRoom_meanwhile svc jwt Demo.leaves_at_once "c1" "A" Demo.u2_in))
    = ["roomMembers"; "userLeft"; "messageHistory"; "roomMembers"; "userJoined"].
Proof.
  assert (H1 : identity Demo.u2_in "c1" = Some "u1") by (vm_compute; reflexivity).
  assert (H2 : findAllByRoom svc "A" "u1" (db Demo.u2_in) = (Returned [], []))
    by (vm_compute; reflexivity).
  refine (conj H1 (conj H2 _)).
  destruct (join_announces_members_then_arrival svc jwt Demo.leaves_at_once
              Demo.u2_in "c1" "A" "u1" [] [] H1 H2) as (-> & _).
  vm_compute. reflexivity.
Defined.

Lemma leave_announces_to_remaining_only_witness :
  identity two_users_in "c1" = Some "u1"
  ∧ holds_join two_users_in "c1" "A" = true
  ∧ JsMap.has "A" (roomMembers two_users_in) = true
  ∧ events (log_of (handleLeaveRoom "c1" "A" two_users_in)) = ["roomMembers"; "userLeft"]
  ∧ holds_join (state_of (handleLeaveRoom "c1" "A" two_users_in)) "c1" "A" = false.
Proof.
  assert (H1 : identity two_users_in "c1" = Some "u1") by (vm_compute; reflexivity).
  assert (H2 : holds_join two_users_in "c1" "A" = true) by (vm_compute; reflexivity).
  assert (H3 : JsMap.has "A" (roomMembers two_users_in) = true) by (vm_compute; reflexivity).
  refine (conj H1 (conj H2 (conj H3 _))).
  destruct (leave_announces_to_remaining_only two_users_in "c1" "A" "u1" H1 H2 H3)
    as (_ & Hout & _ & -> & _).
  split; [reflexivity | exact Hout].
Defined.

Lemma unauthenticated_never_registered_witness :
  reachable svc jwt lobby
  ∧ sockets (after (connect jwt "c9" (Some "forged")) lobby) !! "c9"
    = Some {| handshake_token := Some "forged"; data := None; rooms := ∅;
              connected := false |}
  ∧ sockets (after (connect jwt "c8" None) lobby) !! "c8"
    = Some {| handshake_token := None; data := None; rooms := ∅; connected := false |}.
Proof.
  pose proof lobby_reachable as H1. refine (conj H1 _).
  destruct (unauthenticated_never_registered svc jwt lobby H1) as [Hrej _].
  split.
  - apply (Hrej "c9" (Some "forged")). right. by exists (ErrorObj "jwt malformed").
  - apply (Hrej "c8" None). by left.
Defined.

Lemma leave_without_join_still_announces_witness :
  identity lobby "c1" = Some "u1"
  ∧ holds_join lobby "c1" "A" = false
  ∧ outcome_of (handleLeaveRoom "c1" "A" lobby) = Returned tt
  ∧ events (log_of (handleLeaveRoom "c1" "A" lobby)) = ["userLeft"].
Proof.
  assert (H1 : identity lobby "c1" = Some "u1") by (vm_compute; reflexivity).
  assert (H2 : holds_join lobby "c1" "A" = false) by (vm_compute; reflexivity).
  refine (conj H1 (conj H2 _)).
  destruct (leave_without_join_still_announces lobby "c1" "A" "u1" H1 H2)
    as (Hout & _ & ->).
  split; [exact Hout | reflexivity].
Defined.

Lemma join_keeps_member_when_history_fails_witness :
  identity lobby "c3" = Some "u2"
  ∧ findAllByRoom svc "B" "u2" (db lobby) = (Threw forbidden, [])
  ∧ handleJoinRoom svc "c3" "B" lobby
    = (Threw forbidden, with_db (joined lobby "c3" "B" "u2") [], [])
  ∧ is_member (with_db (joined lobby "c3" "B" "u2") []) "B" "u2" = true.
Proof.
  assert (H1 : identity lobby "c3" = Some "u2") by (vm_compute; reflexivity).
  assert (H2 : findAllByRoom svc "B" "u2" (db lobby) = (Threw forbidden, []))
    by (vm_compute; reflexivity).
  refine (conj H1 (conj H2 _)).
  destruct (join_keeps_member_when_history_fails svc lobby "c3" "B" "u2" forbidden [] H1 H2)
    as (_ & _ & _ & _ & Hrun & Hmem).
  exact (conj Hrun Hmem).
Defined.

(** * More of the gateway *)

(** ** updateMessage, deleteMessage, getRoomMembers *)

Section MessageCommands.
Context {DB : Type}.
Variable messageService : MessageService DB.
Implicit Types (g : Gateway DB) (c r u : string).

(** X1. [updateMessage]: one [messageUpdated] with the stored message goes to
    the channel of the room the stored message belongs to, when and only
    when the persistence service accepted the update; otherwise the caller
    gets the error text and nothing is emitted. *)
Theorem updateMessage_broadcasts_iff_persisted g c i t u :
  identity g c = Some u →
  handleUpdateMessage messageService c i t g =
    match update messageService i u {| upd_content := t |} (db g) with
    | (Returned m, d) =>
        (Returned (SuccessMessage m), with_db g d,
         [ {| emission := {| target := ToRoom (room_channel (roomId m));
                             event := "messageUpdated"; payload := PMessage m |};
              receivers := subscribers (room_channel (roomId m)) (sockets g) |} ])
    | (Threw e, d) => (Returned (Failure (error_text e)), with_db g d, [])
    end.
Proof.
  intros Hid. unfold handleUpdateMessage, try_catch, bind, user_sub, call, emit, ret.
  rewrite Hid.
  destruct (update messageService i u _ (db g)) as [[m | e] d]; simpl; [done |].
  by destruct e.
Qed.

(** X2. [deleteMessage]: the message is looked up first; when the lookup
    fails, [remove] is not called. Only after [remove] succeeded one
    [messageDeleted] goes out, to the room of the message that was looked
    up, carrying the id and the room id and no content. *)
Theorem deleteMessage_announces_after_removal g c i u :
  identity g c = Some u →
  handleDeleteMessage messageService c i g =
    match findOne messageService i u (db g) with
    | (Returned m, d) =>
        match remove messageService i u d with
        | (Returned _, d') =>
            (Returned Success, with_db g d',
             [ {| emission := {| target := ToRoom (room_channel (roomId m));
                                 event := "messageDeleted";
                                 payload := PDeleted i (roomId m) |};
                  receivers := subscribers (room_channel (roomId m)) (sockets g) |} ])
        | (Threw e, d') => (Returned (Failure (error_text e)), with_db g d', [])
        end
    | (Threw e, d) => (Returned (Failure (error_text e)), with_db g d, [])
    end.
Proof.
  intros Hid. unfold handleDeleteMessage, try_catch, bind, user_sub, call, emit, ret.
  rewrite Hid.
  destruct (findOne messageService i u (db g)) as [[m | e] d]; simpl;
    [| by destruct e].
  destruct (remove messageService i u d) as [[[] | e] d']; simpl; [done |].
  by destruct e.
Qed.

Lemma handleGetRoomMembers_run g c r :
  handleGetRoomMembers c r g =
    (Returned (SuccessMembers (membersOf g r)), g,
     [delivery g (ToClient c) "roomMembers" (PMembers (membersOf g r))]).
Proof.
  unfold handleGetRoomMembers, try_catch, bind, get_state, emit, ret; simpl.
  unfold membersOf, JsMap.has, JsSet.to_array.
  by destruct (JsMap.get r (roomMembers g)).
Qed.

(** X3. [getRoomMembers] answers from the membership map and changes nothing:
    the reply and the one [roomMembers] event, sent to the requester
    alone, carry the same list. That list is empty for a room without an
    entry, holds the user right after a [joinRoom] of one of their sockets
    (whether or not the history fetch went through), and does not hold
    the user right after a [leaveRoom] of one of their sockets. The
    requester needs neither a join nor an identity. *)
Theorem getRoomMembers_reports_membership g c c' r u :
  identity g c' = Some u →
  let asked g0 := handleGetRoomMembers c r g0 in
  (∀ g0, state_of (asked g0) = g0
         ∧ ∃ l, outcome_of (asked g0) = Returned (SuccessMembers l)
                ∧ log_of (asked g0)
                  = [ {| emission := {| target := ToClient c; event := "roomMembers";
                                        payload := PMembers l |};
                         receivers := {[c]} |} ]
                ∧ (JsMap.has r (roomMembers g0) = false → l = []))
  ∧ (∃ l, outcome_of (asked (state_of (handleJoinRoom messageService c' r g)))
          = Returned (SuccessMembers l) ∧ u ∈ l)
  ∧ (∃ l, outcome_of (asked (state_of (handleLeaveRoom c' r g)))
          = Returned (SuccessMembers l) ∧ u ∉ l).
Proof.
  intros Hid asked. subst asked. cbn beta. split_and!.
  - intros g0. rewrite handleGetRoomMembers_run. split; [done |].
    exists (membersOf g0 r). split_and!; [done | done |].
    intros Hno. apply JsMapFacts.jsmap_has_false in Hno. unfold membersOf.
    by rewrite Hno.
  - rewrite handleGetRoomMembers_run. eexists. split; [done |].
    destruct (handleJoinRoom_state messageService g c' r u Hid) as [d ->].
    apply JsSetFacts.jsset_has_true. apply (is_member_joined g c' r u).
  - rewrite handleGetRoomMembers_run. eexists. split; [done |].
    rewrite (handleLeaveRoom_run _ _ _ _ Hid). unfold state_of; simpl.
    apply JsSetFacts.jsset_has_false. apply (is_member_left_room g c' r u).
Qed.

(** X4. The message commands and [getRoomMembers] never touch presence: the
    membership map and the sockets come out as they went in, whatever the
    persistence service answers and whether or not the socket has a user. *)
Theorem message_commands_leave_presence_alone g c :
  (∀ dto, roomMembers (state_of (handleSendMessage messageService c dto g)) = roomMembers g
          ∧ sockets (state_of (handleSendMessage messageService c dto g)) = sockets g)
  ∧ (∀ i t, roomMembers (state_of (handleUpdateMessage messageService c i t g))
            = roomMembers g
            ∧ sockets (state_of (handleUpdateMessage messageService c i t g)) = sockets g)
  ∧ (∀ i, roomMembers (state_of (handleDeleteMessage messageService c i g)) = roomMembers g
          ∧ sockets (state_of (handleDeleteMessage messageService c i g)) = sockets g)
  ∧ (∀ r, roomMembers (state_of (handleGetRoomMembers c r g)) = roomMembers g
          ∧ sockets (state_of (handleGetRoomMembers c r g)) = sockets g).
Proof.
  split_and!.
  - intros dto.
    unfold handleSendMessage, try_catch, bind, user_sub, call, emit, ret, state_of.
    destruct (identity g c); simpl; [| done].
    destruct (create _ _ _ _) as [[m | e] d]; simpl; [done | by destruct e].
  - intros i t.
    unfold handleUpdateMessage, try_catch, bind, user_sub, call, emit, ret, state_of.
    destruct (identity g c); simpl; [| done].
    destruct (update _ _ _ _ _) as [[m | e] d]; simpl; [done | by destruct e].
  - intros i.
    unfold handleDeleteMessage, try_catch, bind, user_sub, call, emit, ret, state_of.
    destruct (identity g c); simpl; [| done].
    destruct (findOne _ _ _ _) as [[m | e] d]; simpl; [| by destruct e].
    destruct (remove _ _ _ _) as [[[] | e] d']; simpl; [done | by destruct e].
  - intros r. by rewrite handleGetRoomMembers_run.
Qed.

(** X5. A command on a socket without a user. The three message handlers read
    [client.data.user.sub] inside their [try]: the [TypeError] becomes a
    failure result, the persistence service is not called and nothing is
    emitted. [joinRoom] and [leaveRoom] read it outside any [try], after
    the socket has entered or left the room's channel: they throw, with
    the channel change done, the membership map untouched and nothing
    emitted. *)
Theorem commands_without_user g c :
  identity g c = None →
  (∀ dto, handleSendMessage messageService c dto g
          = (Returned (Failure (error_text type_error)), g, []))
  ∧ (∀ i t, handleUpdateMessage messageService c i t g
            = (Returned (Failure (error_text type_error)), g, []))
  ∧ (∀ i, handleDeleteMessage messageService c i g
          = (Returned (Failure (error_text type_error)), g, []))
  ∧ (∀ r, handleJoinRoom messageService c r g
          = (Threw type_error,
             {| roomMembers := roomMembers g;
                sockets := alter (with_rooms (λ R, {[room_channel r]} ∪ R)) c (sockets g);
                db := db g |}, []))
  ∧ (∀ r, handleLeaveRoom c r g
          = (Threw type_error,
             {| roomMembers := roomMembers g;
                sockets := alter (with_rooms (λ R, R ∖ {[room_channel r]})) c (sockets g);
                db := db g |}, [])).
Proof.
  intros Hid. split_and!.
  - intros dto. unfold handleSendMessage, try_catch, bind, user_sub. by rewrite Hid.
  - intros i t. unfold handleUpdateMessage, try_catch, bind, user_sub. by rewrite Hid.
  - intros i. unfold handleDeleteMessage, try_catch, bind, user_sub. by rewrite Hid.
  - intros r.
    unfold handleJoinRoom, track_join, bind, socket_join, alter_socket, user_sub; simpl.
    rewrite identity_alter by done. by rewrite Hid.
  - intros r. unfold handleLeaveRoom, bind, socket_leave, alter_socket, user_sub; simpl.
    rewrite identity_alter by done. by rewrite Hid.
Qed.
End MessageCommands.

(** ** The handshake that succeeds, and closing twice *)

Section ConnectionLifecycle.
Context {DB : Type}.
Variable messageService : MessageService DB.
Variable jwtService : JwtService.
Implicit Types (g : Gateway DB) (c r u : string).

Lemma channels_differ u r : room_channel r ≠ user_channel u.
Proof. unfold room_channel, user_channel. intros H. cbv in H. discriminate H. Qed.

Lemma handleConnection_accepts g c s t p :
  sockets g !! c = Some s →
  handshake_token s = Some t →
  falsy (Some t) = false →
  verify jwtService t = Returned p →
  handleConnection jwtService c g
  = (Returned tt,
     {| roomMembers := roomMembers g;
        sockets := alter (with_rooms (λ R, {[user_channel (sub p)]} ∪ R)) c
                     (alter (with_data p) c (sockets g));
        db := db g |}, []).
Proof.
  intros Hs Ht Hf Hv.
  unfold handleConnection, try_catch, bind at 1, get_state.
  rewrite Hs. cbn [mbind option_bind]. rewrite Ht, Hf.
  change (default "" (Some t)) with t.
  unfold bind, lift_outcome, set_data, socket_join, alter_socket. by rewrite Hv.
Qed.

(** X6. A handshake with a token that [verify] accepts, for a socket in
    whatever channels socket.io has put it: the socket stays as open as
    it was, the returned payload is attached to it, the private channel
    of that user is added to its channels and no room channel is, and
    nothing is emitted or entered into the membership map. *)
Theorem connect_accepts_verified_token g c s t p :
  sockets g !! c = Some s →
  handshake_token s = Some t →
  falsy (Some t) = false →
  verify jwtService t = Returned p →
  let res := handleConnection jwtService c g in
  outcome_of res = Returned tt
  ∧ log_of res = []
  ∧ roomMembers (state_of res) = roomMembers g
  ∧ db (state_of res) = db g
  ∧ sockets (state_of res) !! c
    = Some {| handshake_token := Some t; data := Some p;
              rooms := {[user_channel (sub p)]} ∪ rooms s; connected := connected s |}
  ∧ identity (state_of res) c = Some (sub p)
  ∧ (∀ r, holds_join (state_of res) c r = holds_join g c r)
  ∧ (∀ c', c' ≠ c → sockets (state_of res) !! c' = sockets g !! c').
Proof.
  intros Hs Ht Hf Hv res. subst res.
  rewrite (handleConnection_accepts g c s t p Hs Ht Hf Hv).
  unfold outcome_of, log_of, state_of; cbn [fst snd roomMembers db sockets].
  assert (Hc : alter (with_rooms (λ R, {[user_channel (sub p)]} ∪ R)) c
                 (alter (with_data p) c (sockets g)) !! c
               = Some {| handshake_token := Some t; data := Some p;
                         rooms := {[user_channel (sub p)]} ∪ rooms s;
                         connected := connected s |}).
  { rewrite !lookup_alter_eq, Hs. cbn. unfold with_rooms, with_data; cbn.
    by rewrite Ht. }
  split_and!; try done.
  - unfold identity; cbn [sockets]. by rewrite Hc.
  - intros r. unfold holds_join; cbn [sockets]. rewrite Hc, Hs. cbn [rooms].
    apply bool_decide_ext. rewrite elem_of_union, elem_of_singleton.
    split; [| by right]. intros [H | H]; [| done]. by apply channels_differ in H.
  - intros c' Hne. by rewrite !lookup_alter_ne.
Qed.

Lemma closed_twice (s : Socket) : closed (closed s) = closed s.
Proof. done. Qed.

Lemma delete_twice u (s : list string) :
  JsSet.delete u (JsSet.delete u s) = JsSet.delete u s.
Proof.
  apply JsSetFacts.delete_absent. rewrite JsSetFacts.elem_of_delete. tauto.
Qed.

Lemma farewell_gone_nil u (m : list (string * list string)) g :
  ((λ kv, (kv.1, JsSet.delete u kv.2)) <$> m) ≫= farewell g u = [].
Proof.
  induction m as [| [k v] m IH]; [done |].
  rewrite fmap_cons, bind_cons, IH. unfold farewell. cbn [fst snd].
  by rewrite JsSetFacts.has_delete.
Qed.

(** X7. Closing is idempotent: when the disconnect of a socket has run, a
    second one changes nothing and emits nothing. *)
Theorem disconnect_twice_is_silent g c :
  NoDup (JsMap.keys (roomMembers g)) →
  disconnect c (state_of (disconnect c g)) = (Returned tt, state_of (disconnect c g), []).
Proof.
  intros Hnd.
  assert (Hanon : ∀ g0, identity g0 c = None ∨ identity g0 c = Some "" →
            disconnect c (state_of (disconnect c g0))
            = (Returned tt, state_of (disconnect c g0), [])).
  { intros g0 H0. rewrite (disconnect_anonymous g0 c H0). unfold state_of; simpl.
    rewrite disconnect_anonymous by (by rewrite identity_alter). simpl.
    by rewrite (alter_twice closed) by apply closed_twice. }
  destruct (identity g c) as [u |] eqn:Hid; [| apply Hanon; by left].
  destruct (decide (u = "")) as [-> | Hu]; [apply Hanon; by right |].
  rewrite (disconnect_run g c u Hid Hu Hnd). unfold state_of; simpl.
  rewrite (disconnect_run (gone g c u) c u).
  - unfold gone; simpl. rewrite farewell_gone_nil.
    rewrite (alter_twice closed) by apply closed_twice.
    rewrite <- list_fmap_compose. do 2 f_equal. f_equal.
    apply list_fmap_ext. intros _ [k v] _. simpl. by rewrite delete_twice.
  - unfold gone. by rewrite identity_alter.
  - done.
  - unfold gone; simpl. by rewrite keys_fmap_values.
Qed.

(** X8. A disconnect takes its user out of every member set and leaves
    everything else: the other users of each room keep their place, no
    room entry is dropped, the other sockets keep their channels. That
    holds for another socket of the same user too: it stays in the
    channels of its rooms while its user is no longer listed there. *)
Theorem disconnect_keeps_the_rest g c u :
  identity g c = Some u →
  u ≠ "" →
  NoDup (JsMap.keys (roomMembers g)) →
  let g' := state_of (disconnect c g) in
  (∀ r, membersOf g' r = JsSet.delete u (membersOf g r))
  ∧ (∀ r u', u' ≠ u → is_member g' r u' = is_member g r u')
  ∧ JsMap.keys (roomMembers g') = JsMap.keys (roomMembers g)
  ∧ (∀ c', c' ≠ c → sockets g' !! c' = sockets g !! c')
  ∧ (∀ c' r, c' ≠ c → identity g c' = Some u → holds_join g c' r = true →
       holds_join g' c' r = true ∧ is_member g' r u = false).
Proof.
  intros Hid Hu Hnd g'. subst g'. rewrite (disconnect_run g c u Hid Hu Hnd).
  unfold state_of; cbn [fst snd].
  assert (Hother : ∀ c', c' ≠ c → sockets (gone g c u) !! c' = sockets g !! c').
  { intros c' Hne. unfold gone; simpl. by rewrite lookup_alter_ne. }
  split_and!.
  - intros r. apply membersOf_gone.
  - intros r u' Hne. unfold is_member. rewrite membersOf_gone.
    unfold JsSet.has. apply bool_decide_ext. rewrite JsSetFacts.elem_of_delete. tauto.
  - unfold gone; simpl. apply keys_fmap_values.
  - done.
  - intros c' r Hne _ Hheld. split.
    + unfold holds_join in *. by rewrite Hother.
    + unfold is_member. rewrite membersOf_gone. apply JsSetFacts.has_delete.
Qed.
End ConnectionLifecycle.

(** ** joinRoom and leaveRoom act on one room, one user, one socket *)

Section PresenceFrame.
Context {DB : Type}.
Variable messageService : MessageService DB.
Implicit Types (g : Gateway DB) (c r u : string).

Lemma membersOf_left_room g c r u :
  membersOf (left_room g c r u) r = JsSet.delete u (membersOf g r).
Proof.
  unfold membersOf at 1, left_room; simpl.
  destruct (JsMap.has r (roomMembers g)) eqn:Hhas.
  - by rewrite JsMapFacts.get_set_eq.
  - apply JsMapFacts.jsmap_has_false in Hhas. unfold membersOf. by rewrite Hhas.
Qed.

Lemma membersOf_left_room_ne g c r r' u :
  r ≠ r' → membersOf (left_room g c r u) r' = membersOf g r'.
Proof.
  intros Hne. unfold membersOf, left_room; simpl.
  destruct (JsMap.has r (roomMembers g)); [| done].
  by rewrite JsMapFacts.get_set_ne.
Qed.

Lemma set_absent {V} k (v : V) (m : list (string * V)) :
  JsMap.get k m = None → JsMap.set k v m = m ++ [(k, v)].
Proof.
  induction m as [| [k0 v0] m IH]; simpl; [done |].
  destruct (decide (k = k0)); [done |]. intros H. by rewrite IH.
Qed.

Lemma delete_add_absent u (s : list string) :
  u ∉ s → JsSet.delete u (JsSet.add u s) = s.
Proof.
  intros Hu. unfold JsSet.add.
  rewrite (proj2 (JsSetFacts.jsset_has_false u s) Hu).
  unfold JsSet.delete. rewrite filter_app.
  rewrite filter_cons_False by (intros H; by apply H). rewrite filter_nil, app_nil_r.
  by apply JsSetFacts.delete_absent.
Qed.

(** X9. A [joinRoom] or [leaveRoom] of a socket of user [u] for room [r]
    leaves the member sets of all other rooms, the membership of all other
    users in [r], all other sockets, and the socket's other channels as
    they are. *)
Theorem presence_change_is_local g c r u :
  identity g c = Some u →
  let gj := state_of (handleJoinRoom messageService c r g) in
  let gl := state_of (handleLeaveRoom c r g) in
  (∀ r', r' ≠ r → membersOf gj r' = membersOf g r' ∧ membersOf gl r' = membersOf g r')
  ∧ (∀ u', u' ≠ u →
       is_member gj r u' = is_member g r u' ∧ is_member gl r u' = is_member g r u')
  ∧ (∀ c', c' ≠ c →
       sockets gj !! c' = sockets g !! c' ∧ sockets gl !! c' = sockets g !! c')
  ∧ (∀ r', r' ≠ r →
       holds_join gj c r' = holds_join g c r' ∧ holds_join gl c r' = holds_join g c r').
Proof.
  intros Hid gj gl. subst gj gl.
  destruct (handleJoinRoom_state messageService g c r u Hid) as [d ->].
  rewrite (handleLeaveRoom_run _ _ _ _ Hid). unfold state_of; cbn [fst snd].
  split_and!.
  - intros r' Hne. split.
    + by apply (membersOf_joined_ne g c r r' u).
    + by apply membersOf_left_room_ne.
  - intros u' Hne. unfold is_member. split.
    + change (membersOf (with_db (joined g c r u) d) r)
        with (membersOf (joined g c r u) r).
      rewrite membersOf_joined. unfold JsSet.has. apply bool_decide_ext.
      rewrite JsSetFacts.elem_of_add. intuition congruence.
    + rewrite membersOf_left_room. unfold JsSet.has. apply bool_decide_ext.
      rewrite JsSetFacts.elem_of_delete. tauto.
  - intros c' Hne. unfold joined, left_room; simpl.
    by rewrite !lookup_alter_ne.
  - intros r' Hne. unfold holds_join, joined, left_room; simpl.
    rewrite !lookup_alter_eq. destruct (sockets g !! c) as [s |]; simpl; [| done].
    assert (Hch : room_channel r' ≠ room_channel r).
    { intros H. by apply Hne, room_channel_inj. }
    split; apply bool_decide_ext.
    + rewrite elem_of_union, elem_of_singleton. tauto.
    + rewrite elem_of_difference, elem_of_singleton. tauto.
Qed.

(** X10. Joining and leaving again. For a user who is not in the member set of
    the room, on a socket that is not in the room's channel, a [joinRoom]
    followed by a [leaveRoom] gives back the member set and the sockets.
    What stays behind is the room's entry in the membership map: a room
    that had none now has an empty one, at the end of the map. *)
Theorem join_then_leave_round_trip g c r u :
  identity g c = Some u →
  u ∉ membersOf g r →
  holds_join g c r = false →
  let g' := state_of (handleLeaveRoom c r
                        (state_of (handleJoinRoom messageService c r g))) in
  membersOf g' r = membersOf g r
  ∧ sockets g' = sockets g
  ∧ roomMembers g' =
      (if JsMap.has r (roomMembers g) then roomMembers g
       else roomMembers g ++ [(r, JsSet.empty)]).
Proof.
  intros Hid Hu Hout g'. subst g'.
  destruct (handleJoinRoom_state messageService g c r u Hid) as [d ->].
  rewrite (handleLeaveRoom_run _ c r u) by (by rewrite identity_with_db, identity_joined).
  unfold state_of; cbn [fst snd].
  assert (Hrm : roomMembers (left_room (with_db (joined g c r u) d) c r u)
                = JsMap.set r (membersOf g r) (roomMembers g)).
  { unfold left_room; simpl. rewrite JsMapFacts.has_set.
    change (membersOf (with_db (joined g c r u) d) r)
      with (membersOf (joined g c r u) r).
    rewrite membersOf_joined, delete_add_absent by done.
    apply JsMapFacts.set_set. }
  split_and!.
  - unfold membersOf at 1. rewrite Hrm, JsMapFacts.get_set_eq. done.
  - unfold left_room, joined; simpl. apply map_eq. intros c'.
    destruct (decide (c = c')) as [<- | Hne]; [| by rewrite !lookup_alter_ne].
    rewrite !lookup_alter_eq. unfold holds_join in Hout.
    destruct (sockets g !! c) as [s |]; simpl; [| done].
    apply bool_decide_eq_false in Hout. f_equal. destruct s as [tk dt rs cn].
    unfold with_rooms; simpl in *. f_equal.
    apply set_eq. intros x. rewrite elem_of_difference, elem_of_union, elem_of_singleton.
    split; [tauto |]. intros Hx. split; [by right |]. by intros ->.
  - rewrite Hrm. unfold membersOf.
    destruct (JsMap.has r (roomMembers g)) eqn:Hhas.
    + apply JsMapFacts.jsmap_has_true in Hhas as [s Hs]. rewrite Hs. simpl.
      by apply JsMapFacts.set_get_id.
    + apply JsMapFacts.jsmap_has_false in Hhas. rewrite Hhas. simpl.
      by apply set_absent.
Qed.
End PresenceFrame.

(** ** What holds in every state the gateway can reach *)

Section ReachableStates.
Context {DB : Type}.
Variable messageService : MessageService DB.
Variable jwtService : JwtService.
Implicit Types (g : Gateway DB) (c r u : string).

(** The four ways one input can change the membership map. *)
Lemma step_roomMembers g i :
  NoDup (JsMap.keys (roomMembers g)) →
  let g' := state_of (step messageService jwtService i g) in
  roomMembers g' = roomMembers g
  ∨ (∃ c r u, i = Inbound c (JoinRoom r) ∧ identity g c = Some u
       ∧ roomMembers g' = JsMap.set r (JsSet.add u (membersOf g r)) (roomMembers g))
  ∨ (∃ r u, JsMap.has r (roomMembers g) = true
       ∧ roomMembers g' = JsMap.set r (JsSet.delete u (membersOf g r)) (roomMembers g))
  ∨ (∃ u, roomMembers g' = (λ kv, (kv.1, JsSet.delete u kv.2)) <$> roomMembers g).
Proof.
  intros Hnd g'. subst g'. destruct i as [c token | c cmd | c]; cbn [step].
  - left. rewrite connect_run. unfold state_of.
    destruct (falsy token); [done |].
    by destruct (verify jwtService (default "" token)).
  - rewrite state_of_bind_pure by done.
    destruct cmd as [r | r | dto | i t | i | r]; cbn [dispatch];
      rewrite state_of_bind_pure by done.
    + rewrite roomMembers_handleJoinRoom.
      destruct (identity g c) as [u |] eqn:Hid; [| by left].
      right; left. by exists c, r, u.
    + rewrite roomMembers_handleLeaveRoom.
      destruct (identity g c) as [u |] eqn:Hid; [| by left].
      unfold left_room; simpl.
      destruct (JsMap.has r (roomMembers g)) eqn:Hhas; [| by left].
      right; right; left. by exists r, u.
    + left. apply roomMembers_handleSendMessage.
    + left. apply roomMembers_handleUpdateMessage.
    + left. apply roomMembers_handleDeleteMessage.
    + left. apply roomMembers_handleGetRoomMembers.
  - destruct (identity g c) as [u |] eqn:Hid.
    + destruct (decide (u = "")) as [-> | Hu].
      * left. rewrite disconnect_anonymous; [done | by right].
      * right; right; right. exists u. by rewrite (disconnect_run g c u Hid Hu Hnd).
    + left. rewrite disconnect_anonymous; [done | by left].
Qed.

Lemma membersOf_set g g' r r' (v : list string) :
  roomMembers g' = JsMap.set r v (roomMembers g) →
  membersOf g' r' = if decide (r = r') then v else membersOf g r'.
Proof.
  intros H. unfold membersOf. rewrite H. destruct (decide (r = r')) as [-> | Hne].
  - by rewrite JsMapFacts.get_set_eq.
  - by rewrite JsMapFacts.get_set_ne.
Qed.

Lemma membersOf_fmap_delete g g' r u :
  roomMembers g' = (λ kv, (kv.1, JsSet.delete u kv.2)) <$> roomMembers g →
  membersOf g' r = JsSet.delete u (membersOf g r).
Proof.
  intros H. unfold membersOf. rewrite H, get_fmap_values.
  by destruct (JsMap.get r (roomMembers g)).
Qed.

(** X11. In every reachable state the membership map has each room once and
    every member set has each user once: a [roomMembers] payload never
    lists a user twice. *)
Theorem reachable_members_listed_once g :
  reachable messageService jwtService g →
  NoDup (JsMap.keys (roomMembers g)) ∧ ∀ r, NoDup (membersOf g r).
Proof.
  intros Hreach. split; [by eapply reachable_keys_NoDup |].
  induction Hreach as [d | g i Hreach IH Hen]; [intros r; apply NoDup_nil_2 |].
  pose proof (reachable_keys_NoDup _ _ g Hreach) as Hnd.
  intros r'.
  destruct (step_roomMembers g i Hnd)
    as [Heq | [(c & r & u & _ & _ & Hset) | [(r & u & _ & Hset) | [u Hmap]]]].
  - unfold membersOf. rewrite Heq. apply IH.
  - rewrite (membersOf_set _ _ _ r' _ Hset). case_decide; [| apply IH].
    apply JsSetFacts.NoDup_add, IH.
  - rewrite (membersOf_set _ _ _ r' _ Hset). case_decide; [| apply IH].
    apply JsSetFacts.NoDup_delete, IH.
  - rewrite (membersOf_fmap_delete _ _ r' u Hmap). apply JsSetFacts.NoDup_delete, IH.
Qed.

(** X12. In every reachable state, every user id in a member set is the [sub]
    of a payload that [verify] returned for some non-empty token: only
    verified users are ever listed as present. *)
Theorem reachable_members_are_verified g r u :
  reachable messageService jwtService g →
  u ∈ membersOf g r →
  ∃ t p, falsy (Some t) = false ∧ verify jwtService t = Returned p ∧ sub p = u.
Proof.
  intros Hreach. revert r u.
  induction Hreach as [d | g i Hreach IH Hen]; intros r' u' Hin.
  { by apply elem_of_nil in Hin. }
  pose proof (reachable_keys_NoDup _ _ g Hreach) as Hnd.
  destruct (step_roomMembers g i Hnd)
    as [Heq | [(c & r & u & _ & Hid & Hset) | [(r & u & _ & Hset) | [u Hmap]]]].
  - apply (IH r' u'). unfold membersOf in *. by rewrite Heq in Hin.
  - rewrite (membersOf_set _ _ _ r' _ Hset) in Hin. case_decide; [| by apply (IH r')].
    subst r'. apply JsSetFacts.elem_of_add in Hin as [-> | Hin]; [| by apply (IH r)].
    unfold identity in Hid. destruct (sockets g !! c) as [s |] eqn:Hs; [| done].
    simpl in Hid. destruct (data s) as [p |] eqn:Hd; [| done].
    injection Hid as Hsub.
    destruct (admission_invariant_reachable _ _ g Hreach c
                (handshake_token s, data s, connected s)) as (t & p' & _ & Hf & Hv & Hp).
    { unfold credentials. by rewrite Hs. }
    { right. simpl. rewrite Hd. by eexists. }
    simpl in Hp. exists t, p'. split_and!; [done | done |]. congruence.
  - rewrite (membersOf_set _ _ _ r' _ Hset) in Hin. case_decide; [| by apply (IH r')].
    subst r'. apply JsSetFacts.elem_of_delete in Hin as [_ Hin]. by apply (IH r).
  - rewrite (membersOf_fmap_delete _ _ r' u Hmap) in Hin.
    apply JsSetFacts.elem_of_delete in Hin as [_ Hin]. by apply (IH r').
Qed.

(** X13. No input ever drops or moves a room entry: the rooms of the membership
    map before an input are a prefix of the rooms after it. A member set
    that became empty keeps its entry. *)
Theorem room_entries_are_never_dropped g i :
  reachable messageService jwtService g →
  JsMap.keys (roomMembers g)
    `prefix_of` JsMap.keys (roomMembers (state_of (step messageService jwtService i g))).
Proof.
  intros Hreach. pose proof (reachable_keys_NoDup _ _ g Hreach) as Hnd.
  destruct (step_roomMembers g i Hnd)
    as [Heq | [(c & r & u & _ & _ & Hset) | [(r & u & Hhas & Hset) | [u Hmap]]]].
  - by rewrite Heq.
  - rewrite Hset, JsMapFacts.keys_set.
    destruct (JsMap.has r (roomMembers g)); [done | by apply prefix_app_r].
  - by rewrite Hset, JsMapFacts.keys_set, Hhas.
  - by rewrite Hmap, keys_fmap_values.
Qed.
End ReachableStates.

(** * The browser side *)

(** ** The hook's commands, run by the gateway *)

Section HookAndGateway.
Context {DB : Type}.
Variable messageService : MessageService DB.
Implicit Types (g : Gateway DB) (c r u : string) (h : HookState).

Lemma holds_join_after_join g c r r' u :
  identity g c = Some u →
  holds_join (state_of (dispatch messageService c (JoinRoom r) g)) c r'
  = bool_decide (r' = r) || holds_join g c r'.
Proof.
  intros Hid. destruct (dispatch_join_state messageService g c r u Hid) as [d ->].
  destruct (identity_is_Some g c u Hid) as [s Hs].
  unfold holds_join, joined; simpl. rewrite lookup_alter_eq, Hs. simpl.
  rewrite <- bool_decide_or. apply bool_decide_ext.
  rewrite elem_of_union, elem_of_singleton. split; (intros [H | H]; [left | by right]).
  - by apply room_channel_inj.
  - by rewrite H.
Qed.

Lemma holds_join_after_leave g c r r' u :
  identity g c = Some u →
  holds_join (state_of (dispatch messageService c (LeaveRoom r) g)) c r'
  = negb (bool_decide (r' = r)) && holds_join g c r'.
Proof.
  intros Hid. rewrite (dispatch_leave_state messageService g c r u Hid).
  destruct (identity_is_Some g c u Hid) as [s Hs].
  unfold holds_join, left_room; simpl. rewrite lookup_alter_eq, Hs. simpl.
  rewrite <- bool_decide_not, <- bool_decide_and. apply bool_decide_ext.
  rewrite elem_of_difference, elem_of_singleton. split; intros [H1 H2].
  - split; [| done]. by intros ->.
  - split; [done |]. intros H. by apply H1, room_channel_inj.
Qed.

Lemma run_commands_app g (cs1 cs2 : list (string * Command)) :
  (run_commands messageService (cs1 ++ cs2) g).1
  = (run_commands messageService cs2 (run_commands messageService cs1 g).1).1.
Proof.
  revert g. induction cs1 as [| [c cmd] cs1 IH]; intros g; [done |].
  simpl. apply IH.
Qed.

Lemma run_commands_one g c (cmd : Command) :
  (run_commands messageService [(c, cmd)] g).1
  = state_of (dispatch messageService c cmd g).
Proof. done. Qed.

Lemma shown_with_currentRoom (o : option string) h :
  shown (with_currentRoom o h) = if truthy_room o then o else None.
Proof. done. Qed.

(** After the [leaveRoom] for the current room, a socket that was in sync
    is in no room's channel. *)
Lemma leave_current_clears g c u h :
  identity g c = Some u →
  in_sync h g c →
  let g1 := (run_commands messageService (leave_current c h) g).1 in
  identity g1 c = Some u ∧ ∀ r, holds_join g1 c r = false.
Proof.
  intros Hid Hsync g1. subst g1. unfold leave_current.
  unfold in_sync, shown in Hsync.
  destruct (truthy_room (hk_currentRoom h)) eqn:Ht.
  - destruct (hk_currentRoom h) as [old |]; [| done].
    change (default "" (Some old)) with old.
    rewrite run_commands_one. split.
    + destruct (presence_step messageService g c old u (LeaveRoom old) Hid)
        as (Hids & _); [by right |]. by rewrite Hids.
    + intros r. rewrite (holds_join_after_leave g c old r u Hid), Hsync.
      destruct (decide (r = old)) as [-> | Hne].
      * by rewrite (bool_decide_eq_true_2 (old = old)).
      * rewrite (bool_decide_eq_false_2 (Some old = Some r)) by congruence.
        apply andb_false_r.
  - split; [done |]. intros r. rewrite Hsync. by apply bool_decide_eq_false_2.
Qed.

Lemma join_from_nowhere g c u r :
  identity g c = Some u →
  (∀ r', holds_join g c r' = false) →
  let g1 := (run_commands messageService [(c, JoinRoom r)] g).1 in
  (∀ r', holds_join g1 c r' = bool_decide (r' = r)) ∧ is_member g1 r u = true.
Proof.
  intros Hid Hnone g1. subst g1. rewrite run_commands_one. split.
  - intros r'. rewrite (holds_join_after_join g c r r' u Hid), Hnone. apply orb_false_r.
  - destruct (presence_step messageService g c r u (JoinRoom r) Hid)
      as (_ & Hmem & _); [by left |]. by apply Hmem.
Qed.

(** X14. The hook and the gateway stay in step. Start with a socket of a
    logged-in user that is in the channel of the room the hook shows and
    of no other room. After the commands of the [joinRoom] callback (for
    a non-empty room id), of the [leaveRoom] callback, or of the room
    effect have been handled, the socket is again in the channel of the
    room the hook now shows and of no other; and a room that was newly
    joined lists the user. *)
Theorem hook_keeps_socket_in_shown_room g c u h :
  hk_socket h = Some c →
  hk_user h = true →
  identity g c = Some u →
  in_sync h g c →
  let handled (op : list (string * Command) * HookState) :=
    (run_commands messageService op.1 g).1 in
  (∀ newRoomId, newRoomId ≠ "" →
     in_sync (hook_joinRoom newRoomId h).2 (handled (hook_joinRoom newRoomId h)) c
     ∧ (hk_currentRoom h ≠ Some newRoomId →
        is_member (handled (hook_joinRoom newRoomId h)) newRoomId u = true))
  ∧ in_sync (hook_leaveRoom h).2 (handled (hook_leaveRoom h)) c
  ∧ (∀ roomId, in_sync (hook_roomEffect roomId h).2 (handled (hook_roomEffect roomId h)) c).
Proof.
  intros Hsock Huser Hid Hsync handled. subst handled. cbn beta.
  destruct (leave_current_clears g c u h Hid Hsync) as [Hid1 Hnone].
  assert (Hjoin : ∀ new, new ≠ "" →
            let g' := (run_commands messageService
                         (leave_current c h ++ [(c, JoinRoom new)]) g).1 in
            in_sync (with_currentRoom (Some new) h) g' c ∧ is_member g' new u = true).
  { intros new Hnew g'. subst g'. rewrite run_commands_app.
    destruct (join_from_nowhere _ c u new Hid1 Hnone) as [Hheld Hmem].
    split; [| exact Hmem].
    intros r. rewrite Hheld, shown_with_currentRoom. cbn [truthy_room].
    rewrite (bool_decide_eq_false_2 (new = "")) by done. cbn [negb].
    apply bool_decide_ext. split; congruence. }
  split_and!.
  - intros new Hnew. unfold hook_joinRoom. rewrite Hsock, Huser. cbn [andb].
    destruct (bool_decide (Some new = hk_currentRoom h)) eqn:Hsame; cbn [negb fst snd].
    + apply bool_decide_eq_true in Hsame. split; [done |]. congruence.
    + destruct (Hjoin new Hnew) as [H1 H2]. split; [exact H1 | intros _; exact H2].
  - unfold hook_leaveRoom. rewrite Hsock.
    destruct (truthy_room (hk_currentRoom h)) eqn:Ht; cbn [fst snd]; [| done].
    intros r. unfold leave_current in Hnone. rewrite Ht in Hnone.
    rewrite Hnone, shown_with_currentRoom. done.
  - intros roomId. unfold hook_roomEffect. rewrite Hsock, Huser.
    destruct (bool_decide (roomId = hk_currentRoom h)) eqn:Hsame; cbn [negb fst snd];
      [done |].
    destruct (truthy_room roomId) eqn:Ht.
    + destruct roomId as [new |]; [| done]. change (default "" (Some new)) with new.
      apply Hjoin. cbn in Ht. intros ->. done.
    + rewrite app_nil_r. intros r. rewrite Hnone, shown_with_currentRoom, Ht. done.
Qed.
End HookAndGateway.

(** ** What the hook shows *)

Section HookView.
Context {DB : Type}.
Variable messageService : MessageService DB.
Implicit Types (g : Gateway DB) (c r u : string) (v : HookView).


Lemma listen_roomMembers t l v :
  listen {| target := t; event := "roomMembers"; payload := PMembers l |} v
  = Some (onRoomMembers l v).
Proof. done. Qed.


Lemma listen_userLeft t u r v :
  listen {| target := t; event := "userLeft"; payload := PPresence u r |} v = Some v.
Proof. done. Qed.

Lemma receive_all_in c (dl : Delivery) rest v :
  c ∈ receivers dl →
  receive_all c (dl :: rest) v
  = match listen (emission dl) v with
    | Some v' => receive_all c rest v'
    | None => None
    end.
Proof. intros H. cbn [receive_all]. by rewrite bool_decide_eq_true_2. Qed.

Lemma receive_all_out c (dl : Delivery) rest v :
  c ∉ receivers dl → receive_all c (dl :: rest) v = receive_all c rest v.
Proof. intros H. cbn [receive_all]. by rewrite bool_decide_eq_false_2. Qed.


(** X16. After a [leaveRoom] for a room with an entry, the hooks of the sockets
    that remain in the room's channel show the member list without the
    leaver; the hook of the leaving socket receives nothing and keeps
    showing what it showed. *)
Theorem leave_updates_the_views_of_the_rest g c r u v :
  identity g c = Some u →
  JsMap.has r (roomMembers g) = true →
  let log := log_of (handleLeaveRoom c r g) in
  receive_all c log v = Some v
  ∧ (∀ c', c' ≠ c → c' ∈ subscribers (room_channel r) (sockets g) →
       receive_all c' log v
       = Some {| hk_messages := hk_messages v;
                 hk_roomMembers := JsSet.delete u (membersOf g r) |}).
Proof.
  intros Hid Hhas log. subst log.
  rewrite (handleLeaveRoom_run _ _ _ _ Hid), Hhas.
  unfold log_of; cbn [snd fst app].
  assert (Hgroup : ∀ ev p,
            receivers (delivery (left_room g c r u) (ToRoom (room_channel r)) ev p)
            = subscribers (room_channel r) (sockets g) ∖ {[c]}).
  { intros ev p. unfold delivery, reached, left_room; cbn. apply subscribers_leave. }
  split.
  - rewrite !receive_all_out;
      [done | ..]; rewrite Hgroup, elem_of_difference, elem_of_singleton; tauto.
  - intros c' Hne Hin.
    assert (Hc' : c' ∈ subscribers (room_channel r) (sockets g) ∖ {[c]}).
    { rewrite elem_of_difference, elem_of_singleton. tauto. }
    rewrite receive_all_in by (by rewrite Hgroup).
    unfold delivery at 1. cbn [emission]. rewrite listen_roomMembers.
    rewrite receive_all_in by (by rewrite Hgroup).
    unfold delivery at 1. cbn [emission]. by rewrite listen_userLeft.
Qed.

Lemma filter_all {A} (P : A → Prop) `{∀ x, Decision (P x)} (l : list A) :
  (∀ x, P x) → filter P l = l.
Proof.
  intros HP. induction l as [| x l IH]; [done |].
  by rewrite filter_cons_True, IH.
Qed.

(** X17. The gateway announces a deletion as the object [{id, roomId}], and the
    hook's listener compares each message id with what it is handed. No
    message id is equal to an object: whatever the hook shows, the
    [messageDeleted] of a [deleteMessage] leaves it untouched, the deleted
    message included. Handed the bare id, the same listener drops exactly
    the messages with that id. *)
Theorem hook_ignores_the_gateways_deletion g c i u :
  identity g c = Some u →
  (∀ dl v, dl ∈ log_of (handleDeleteMessage messageService c i g) →
           listen (emission dl) v = Some v)
  ∧ (∀ v m, m ∈ hk_messages (onMessageDeleted (RText i) v)
            ↔ m ∈ hk_messages v ∧ id m ≠ i).
Proof.
  intros Hid. split.
  - intros dl v. unfold handleDeleteMessage, try_catch, bind, user_sub, call, emit, ret.
    rewrite Hid.
    assert (Hnil : ∀ x : Delivery, x ∈ @nil Delivery → listen (emission x) v = Some v).
    { intros x Hx. by apply elem_of_nil in Hx. }
    destruct (findOne messageService i u (db g)) as [[m | e] d0]; cbn;
      [| destruct e; apply Hnil].
    destruct (remove messageService i u d0) as [[[] | e] d']; cbn;
      [| destruct e; apply Hnil].
    intros Hin. apply list_elem_of_singleton in Hin as ->.
    unfold listen, delivery, onMessageDeleted; cbn.
    rewrite filter_all by done. by destruct v.
  - intros v m. unfold onMessageDeleted; cbn. rewrite list_elem_of_filter. cbn.
    rewrite negb_true_iff, bool_decide_eq_false. tauto.
Qed.

(** X18. [messageUpdated] in the hook replaces in place: the list keeps its
    length and its ids in order, every message with the id of the update
    becomes the update, and the others stay. An update for an id the hook
    does not show is dropped, and the listener is idempotent. *)
Theorem hook_update_replaces_in_place (m : Message) v :
  let v' := onMessageUpdated m v in
  id <$> hk_messages v' = id <$> hk_messages v
  ∧ hk_roomMembers v' = hk_roomMembers v
  ∧ (∀ k msg, hk_messages v !! k = Some msg →
       hk_messages v' !! k = Some (if decide (id msg = id m) then m else msg))
  ∧ (m.(id) ∉ id <$> hk_messages v → v' = v)
  ∧ onMessageUpdated m v' = v'.
Proof.
  intros v'. subst v'. unfold onMessageUpdated; cbn. split_and!.
  - rewrite <- list_fmap_compose. apply list_fmap_ext. intros _ msg _. cbn.
    by case_decide.
  - done.
  - intros k msg Hk. by rewrite list_lookup_fmap, Hk.
  - intros Hno. destruct v as [msgs mem]; cbn in *. f_equal.
    rewrite <- (list_fmap_id msgs) at 2. apply list_fmap_ext. intros k msg Hk. cbn.
    case_decide as Heq; [| done]. exfalso. apply Hno.
    rewrite <- Heq. apply list_elem_of_fmap. exists msg. split; [done |].
    by eapply list_elem_of_lookup_2.
  - f_equal. rewrite <- list_fmap_compose. apply list_fmap_ext. intros _ msg _. cbn.
    repeat case_decide; done.
Qed.
End HookView.

(** ** RoomsList *)

Section RoomsListFacts.
Variable inherited : string → option bool.
Implicit Types (roomsById : gmap string RoomInfo) (ids : list string).

Lemma sort_rooms_run roomsById ids : ∀ acc,
  (∀ roomId, roomId ∈ ids → is_Some (roomsById !! roomId)) →
  sort_rooms inherited roomsById ids acc
  = Returned (acc.1 ++ filter (private_in roomsById) ids,
              acc.2 ++ filter (λ roomId, ¬ private_in roomsById roomId) ids).
Proof.
  induction ids as [| roomId ids IH]; intros [p q] Hall; cbn [sort_rooms fst snd].
  - by rewrite !filter_nil, !app_nil_r.
  - destruct (Hall roomId) as [info Hinfo]; [apply elem_of_cons; by left |].
    unfold room_isPrivate. rewrite Hinfo.
    assert (Hrest : ∀ x, x ∈ ids → is_Some (roomsById !! x)).
    { intros x Hx. apply Hall, elem_of_cons. by right. }
    destruct (isPrivate info) eqn:Hp; rewrite IH by done; cbn [fst snd].
    + rewrite filter_cons_True by (unfold private_in; by rewrite Hinfo; cbn; rewrite Hp).
      rewrite filter_cons_False
        by (intros H; apply H; unfold private_in; by rewrite Hinfo; cbn; rewrite Hp).
      by rewrite <- app_assoc.
    + rewrite filter_cons_False
        by (unfold private_in; rewrite Hinfo; cbn; rewrite Hp; discriminate).
      rewrite filter_cons_True
        by (unfold private_in; rewrite Hinfo; cbn; rewrite Hp; discriminate).
      by rewrite <- app_assoc.
Qed.

Lemma sort_rooms_missing roomsById ids : ∀ acc,
  (∃ roomId, roomId ∈ ids ∧ room_isPrivate inherited roomsById roomId = None) →
  sort_rooms inherited roomsById ids acc = Threw missing_room.
Proof.
  induction ids as [| x ids IH]; intros acc (roomId & Hin & Hnone).
  - by apply elem_of_nil in Hin.
  - cbn [sort_rooms].
    destruct (room_isPrivate inherited roomsById x) as [b |] eqn:Hx; [| done].
    assert (Hrest : ∃ y, y ∈ ids ∧ room_isPrivate inherited roomsById y = None).
    { apply elem_of_cons in Hin as [-> | Hin]; [congruence | by exists roomId]. }
    destruct b; by apply IH.
Qed.

(** X19. When the store has a room for every id, [RoomsList] shows the ids that
    are not private as channels and the private ones as direct messages,
    each group in the order of the store: every id lands in exactly one
    group, none is lost or repeated. *)
Theorem RoomsList_sorts_every_room roomsById ids :
  ids ≠ [] →
  (∀ roomId, roomId ∈ ids → is_Some (roomsById !! roomId)) →
  ∃ regularRooms privateRooms,
    RoomsList inherited roomsById ids = Returned (Some (regularRooms, privateRooms))
    ∧ privateRooms = filter (private_in roomsById) ids
    ∧ regularRooms = filter (λ roomId, ¬ private_in roomsById roomId) ids
    ∧ privateRooms ++ regularRooms ≡ₚ ids.
Proof.
  intros Hne Hall. unfold RoomsList. rewrite sort_rooms_run by done. cbn [fst snd app].
  rewrite bool_decide_eq_false_2 by (by destruct ids).
  eexists _, _. split_and!; [done | done | done |].
  apply filter_app_complement.
Qed.

(** X20. An empty store renders nothing. An id under which the store has no
    room and a plain object inherits nothing makes the whole list fail
    with a [TypeError], wherever the id stands and whatever the other
    rooms are. An id under which the store has no room but a plain object
    inherits a member without [isPrivate] (such as [constructor]) does not
    fail: it is shown as a channel. *)
Theorem RoomsList_empty_or_missing roomsById ids :
  RoomsList inherited roomsById [] = Returned None
  ∧ ((∃ roomId, roomId ∈ ids ∧ roomsById !! roomId = None ∧ inherited roomId = None) →
     RoomsList inherited roomsById ids = Threw missing_room)
  ∧ (∀ roomId, roomsById !! roomId = None → inherited roomId = Some false →
       RoomsList inherited roomsById [roomId] = Returned (Some ([roomId], []))).
Proof.
  split_and!; [done | |].
  - intros (roomId & Hin & Hown & Hinh). unfold RoomsList.
    rewrite sort_rooms_missing; [done |].
    exists roomId. split; [done |]. unfold room_isPrivate. by rewrite Hown.
  - intros roomId Hown Hinh. unfold RoomsList. cbn [sort_rooms].
    unfold room_isPrivate. by rewrite Hown, Hinh.
Qed.
End RoomsListFacts.

(** ** Runs of the sample deployment, continued *)

Import Demo.

Lemma lobby_first_socket :
  sockets lobby !! "c1"
  = Some {| handshake_token := Some "token-u1"; data := Some {| sub := "u1" |};
            rooms := {["user:u1"]}; connected := true |}.
Proof. vm_compute. reflexivity. Qed.

Lemma idle_in_sync : in_sync idle lobby "c1".
Proof.
  intros r. unfold holds_join. rewrite lobby_first_socket. cbn.
  apply bool_decide_eq_false. rewrite elem_of_singleton.
  unfold room_channel. intros H. cbv in H. discriminate H.
Qed.

Lemma two_users_in_reachable : reachable svc jwt two_users_in.
Proof.
  assert (H : two_users_in
              = state_of (step svc jwt (Inbound "c3" (JoinRoom "A"))
                  (state_of (step svc jwt (Inbound "c1" (JoinRoom "A")) lobby))))
    by (vm_compute; reflexivity).
  rewrite H.
  apply reachable_step; [| vm_compute; reflexivity].
  apply reachable_step; [| vm_compute; reflexivity].
  apply lobby_reachable.
Qed.

Lemma two_users_in_keys : NoDup (JsMap.keys (roomMembers two_users_in)).
Proof. apply (bool_decide_unpack _). vm_compute. exact I. Qed.

Lemma updateMessage_broadcasts_iff_persisted_witness :
  identity posted "c3" = Some "u2"
  ∧ events (log_of (handleUpdateMessage svc "c3" "m-hi" "hello" posted)) = ["messageUpdated"]
  ∧ handleUpdateMessage svc "c3" "m-nothing" "hello" posted
    = (Returned (Failure "Not found"), posted, []).
Proof.
  assert (H1 : identity posted "c3" = Some "u2") by (vm_compute; reflexivity).
  refine (conj H1 _). split.
  - rewrite (updateMessage_broadcasts_iff_persisted svc posted "c3" "m-hi" "hello" "u2" H1).
    vm_compute. reflexivity.
  - rewrite (updateMessage_broadcasts_iff_persisted svc posted "c3" "m-nothing" "hello"
               "u2" H1).
    reflexivity.
Defined.

Lemma deleteMessage_announces_after_removal_witness :
  identity posted "c3" = Some "u2"
  ∧ identity posted "c1" = Some "u1"
  ∧ events (log_of (handleDeleteMessage svc "c3" "m-hi" posted)) = ["messageDeleted"]
  ∧ handleDeleteMessage svc "c1" "m-hi" posted
    = (Returned (Failure "Forbidden"), posted, []).
Proof.
  assert (H1 : identity posted "c3" = Some "u2") by (vm_compute; reflexivity).
  assert (H2 : identity posted "c1" = Some "u1") by (vm_compute; reflexivity).
  refine (conj H1 (conj H2 _)). split.
  - rewrite (deleteMessage_announces_after_removal svc posted "c3" "m-hi" "u2" H1).
    vm_compute. reflexivity.
  - rewrite (deleteMessage_announces_after_removal svc posted "c1" "m-hi" "u1" H2).
    reflexivity.
Defined.

Lemma getRoomMembers_reports_membership_witness :
  identity lobby "c1" = Some "u1"
  ∧ outcome_of (handleGetRoomMembers "c3" "A" (state_of (handleJoinRoom svc "c1" "A" lobby)))
    = Returned (SuccessMembers ["u1"]).
Proof.
  assert (H1 : identity lobby "c1" = Some "u1") by (vm_compute; reflexivity).
  refine (conj H1 _).
  destruct (getRoomMembers_reports_membership svc lobby "c3" "c1" "A" "u1" H1)
    as (_ & (l & Hl & _) & _).
  rewrite Hl. vm_compute in Hl. symmetry. exact Hl.
Defined.

Lemma commands_without_user_witness :
  identity waiting "c0" = None
  ∧ handleSendMessage svc "c0" (hi "A") waiting
    = (Returned (Failure (error_text type_error)), waiting, [])
  ∧ outcome_of (handleJoinRoom svc "c0" "A" waiting) = Threw type_error.
Proof.
  assert (H1 : identity waiting "c0" = None) by (vm_compute; reflexivity).
  refine (conj H1 _).
  destruct (commands_without_user svc waiting "c0" H1) as (Hsend & _ & _ & Hjoin & _).
  split; [apply Hsend |]. by rewrite Hjoin.
Defined.

Lemma connect_accepts_verified_token_witness :
  sockets knocking !! "c7" = Some knocker
  ∧ handshake_token knocker = Some "token-u2"
  ∧ falsy (Some "token-u2") = false
  ∧ verify jwt "token-u2" = Returned {| sub := "u2" |}
  ∧ sockets (state_of (handleConnection jwt "c7" knocking)) !! "c7"
    = Some {| handshake_token := Some "token-u2"; data := Some {| sub := "u2" |};
              rooms := {[user_channel "u2"]} ∪ {["c7"]}; connected := true |}.
Proof.
  assert (H1 : sockets knocking !! "c7" = Some knocker) by (vm_compute; reflexivity).
  assert (H2 : handshake_token knocker = Some "token-u2") by reflexivity.
  assert (H3 : falsy (Some "token-u2") = false) by reflexivity.
  assert (H4 : verify jwt "token-u2" = Returned {| sub := "u2" |}) by reflexivity.
  refine (conj H1 (conj H2 (conj H3 (conj H4 _)))).
  destruct (connect_accepts_verified_token jwt knocking "c7" knocker "token-u2"
              {| sub := "u2" |} H1 H2 H3 H4) as (_ & _ & _ & _ & Hsock & _).
  exact Hsock.
Defined.

Lemma disconnect_twice_is_silent_witness :
  NoDup (JsMap.keys (roomMembers two_users_in))
  ∧ log_of (disconnect "c1" (state_of (disconnect "c1" two_users_in))) = [].
Proof.
  pose proof two_users_in_keys as H1. refine (conj H1 _).
  by rewrite (disconnect_twice_is_silent two_users_in "c1" H1).
Defined.

Lemma disconnect_keeps_the_rest_witness :
  identity two_users_in "c1" = Some "u1"
  ∧ "u1" ≠ ""
  ∧ NoDup (JsMap.keys (roomMembers two_users_in))
  ∧ is_member (state_of (disconnect "c1" two_users_in)) "A" "u2" = true.
Proof.
  assert (H1 : identity two_users_in "c1" = Some "u1") by (vm_compute; reflexivity).
  assert (H2 : "u1" ≠ "") by discriminate.
  pose proof two_users_in_keys as H3.
  refine (conj H1 (conj H2 (conj H3 _))).
  destruct (disconnect_keeps_the_rest two_users_in "c1" "u1" H1 H2 H3) as (_ & Hrest & _).
  rewrite (Hrest "A" "u2") by discriminate. vm_compute. reflexivity.
Defined.

Lemma presence_change_is_local_witness :
  identity two_users_in "c1" = Some "u1"
  ∧ is_member (state_of (handleLeaveRoom "c1" "A" two_users_in)) "A" "u2" = true.
Proof.
  assert (H1 : identity two_users_in "c1" = Some "u1") by (vm_compute; reflexivity).
  refine (conj H1 _).
  destruct (presence_change_is_local svc two_users_in "c1" "A" "u1" H1) as (_ & Hu & _).
  destruct (Hu "u2") as [_ ->]; [discriminate |]. vm_compute. reflexivity.
Defined.

Lemma join_then_leave_round_trip_witness :
  identity lobby "c1" = Some "u1"
  ∧ ("u1" ∉ membersOf lobby "A")
  ∧ holds_join lobby "c1" "A" = false
  ∧ roomMembers (state_of (handleLeaveRoom "c1" "A"
                             (state_of (handleJoinRoom svc "c1" "A" lobby))))
    = [("A", [])].
Proof.
  assert (H1 : identity lobby "c1" = Some "u1") by (vm_compute; reflexivity).
  assert (H2 : "u1" ∉ membersOf lobby "A") by apply not_elem_of_nil.
  assert (H3 : holds_join lobby "c1" "A" = false) by (vm_compute; reflexivity).
  refine (conj H1 (conj H2 (conj H3 _))).
  destruct (join_then_leave_round_trip svc lobby "c1" "A" "u1" H1 H2 H3) as (_ & _ & ->).
  reflexivity.
Defined.

Lemma reachable_members_listed_once_witness :
  reachable svc jwt two_users_in ∧ NoDup (membersOf two_users_in "A").
Proof.
  pose proof two_users_in_reachable as H1. refine (conj H1 _).
  destruct (reachable_members_listed_once svc jwt two_users_in H1) as [_ H].
  apply H.
Defined.

Lemma reachable_members_are_verified_witness :
  reachable svc jwt two_users_in
  ∧ "u2" ∈ membersOf two_users_in "A"
  ∧ ∃ t p, falsy (Some t) = false ∧ verify jwt t = Returned p ∧ sub p = "u2".
Proof.
  pose proof two_users_in_reachable as H1.
  assert (H2 : "u2" ∈ membersOf two_users_in "A").
  { apply (bool_decide_unpack _). vm_compute. exact I. }
  refine (conj H1 (conj H2 _)).
  exact (reachable_members_are_verified svc jwt two_users_in "A" "u2" H1 H2).
Defined.

Lemma room_entries_are_never_dropped_witness :
  reachable svc jwt two_users_in
  ∧ JsMap.keys (roomMembers two_users_in)
      `prefix_of` JsMap.keys (roomMembers
                    (state_of (step svc jwt (Inbound "c3" (LeaveRoom "A")) two_users_in))).
Proof.
  pose proof two_users_in_reachable as H1. refine (conj H1 _).
  exact (room_entries_are_never_dropped svc jwt two_users_in
           (Inbound "c3" (LeaveRoom "A")) H1).
Defined.

Lemma hook_keeps_socket_in_shown_room_witness :
  hk_socket idle = Some "c1"
  ∧ hk_user idle = true
  ∧ identity lobby "c1" = Some "u1"
  ∧ in_sync idle lobby "c1"
  ∧ in_sync (hook_joinRoom "A" idle).2
      (run_commands svc (hook_joinRoom "A" idle).1 lobby).1 "c1".
Proof.
  assert (H1 : hk_socket idle = Some "c1") by reflexivity.
  assert (H2 : hk_user idle = true) by reflexivity.
  assert (H3 : identity lobby "c1" = Some "u1") by (vm_compute; reflexivity).
  pose proof idle_in_sync as H4.
  refine (conj H1 (conj H2 (conj H3 (conj H4 _)))).
  destruct (hook_keeps_socket_in_shown_room svc lobby "c1" "u1" idle H1 H2 H3 H4)
    as (Hjoin & _).
  destruct (Hjoin "A") as [Hsync _]; [discriminate |]. exact Hsync.
Defined.

Lemma leave_updates_the_views_of_the_rest_witness :
  identity two_users_in "c1" = Some "u1"
  ∧ JsMap.has "A" (roomMembers two_users_in) = true
  ∧ receive_all "c1" (log_of (handleLeaveRoom "c1" "A" two_users_in))
      {| hk_messages := []; hk_roomMembers := ["u1"; "u2"] |}
    = Some {| hk_messages := []; hk_roomMembers := ["u1"; "u2"] |}.
Proof.
  assert (H1 : identity two_users_in "c1" = Some "u1") by (vm_compute; reflexivity).
  assert (H2 : JsMap.has "A" (roomMembers two_users_in) = true) by (vm_compute; reflexivity).
  refine (conj H1 (conj H2 _)).
  destruct (leave_updates_the_views_of_the_rest two_users_in "c1" "A" "u1"
              {| hk_messages := []; hk_roomMembers := ["u1"; "u2"] |} H1 H2) as (Hc & _).
  exact Hc.
Defined.

Lemma hook_ignores_the_gateways_deletion_witness :
  identity posted "c3" = Some "u2"
  ∧ events (log_of (handleDeleteMessage svc "c3" "m-hi" posted)) = ["messageDeleted"]
  ∧ Forall (λ dl, listen (emission dl) (view_of (db posted)) = Some (view_of (db posted)))
      (log_of (handleDeleteMessage svc "c3" "m-hi" posted)).
Proof.
  assert (H1 : identity posted "c3" = Some "u2") by (vm_compute; reflexivity).
  refine (conj H1 _). split; [vm_compute; reflexivity |].
  destruct (hook_ignores_the_gateways_deletion svc posted "c3" "m-hi" "u2" H1) as (Hkeep & _).
  apply Forall_forall. intros dl Hin. by apply Hkeep.
Defined.

Lemma RoomsList_sorts_every_room_witness :
  ["general"; "dm-1"; "random"] ≠ []
  ∧ (∀ roomId, roomId ∈ ["general"; "dm-1"; "random"] → is_Some (store !! roomId))
  ∧ RoomsList object_prototype store ["general"; "dm-1"; "random"]
    = Returned (Some (["general"; "random"], ["dm-1"])).
Proof.
  assert (H1 : ["general"; "dm-1"; "random"] ≠ []) by discriminate.
  assert (H2 : ∀ roomId, roomId ∈ ["general"; "dm-1"; "random"] → is_Some (store !! roomId)).
  { intros roomId Hin. repeat (apply elem_of_cons in Hin as [-> | Hin]);
      [by eexists .. | by apply elem_of_nil in Hin]. }
  refine (conj H1 (conj H2 _)).
  destruct (RoomsList_sorts_every_room object_prototype store
              ["general"; "dm-1"; "random"] H1 H2)
    as (reg & priv & -> & -> & -> & _).
  vm_compute. reflexivity.
Defined.
